(** * Transport synchronisation engine (TimingSync): model and properties

    Shallow embedding of [herehear/src/components/TimingSync.ts] (the
    timestamp/offset engine), of the two methods its earlier revision does
    differently, and of [gpsound/src/components/TimingSync.ts] (the
    kinematic-vector engine) without its connection set-up.

    Conventions.
    - A JavaScript [number] is a rational ([Q]); [NaN] and the infinities are
      left out, and an equation between computed numbers is stated with [==]
      ([Qeq]).  Where a computed number decides a branch (the tempo and drift
      tests), the arithmetic is binary64: each operation rounds its exact
      result to the nearest double, a tie going to the even one
      ([Js.binary64]); so is the delay gpsound hands to its timer.  The
      other sums of the handlers, which decide nothing, are exact.
    - [Date.now()], [Tone.now()], [performance.now()], [Math.random()] and the
      handle returned by [window.setTimeout] are readings of the host; every
      method takes the readings it makes as arguments.
    - The Tone.js transport, the console, the registered callback and the
      timer are collaborators outside the engine.  The world carries the
      transport's observable members and an ordered list of every call the
      engine makes on a collaborator. *)

From Stdlib Require Import QArith Qabs Qround Qpower Qfield ZArith List String Bool
  Lia Lqa.
Import ListNotations.
Open Scope Q_scope.

(** ** JavaScript numbers *)

Module Js.

(** [x > y] on numbers. *)
Definition gt (x y : Q) : bool := negb (Qle_bool x y).

(** [x !== 0]. *)
Definition nonzero (x : Q) : bool := negb (Qeq_bool x 0).

(** Truthiness of a [number | null]: [null] and [0] are falsy. *)
Definition truthy (x : option Q) : bool :=
  match x with
  | None => false
  | Some q => nonzero q
  end.

(** [Math.abs]. *)
Definition Math_abs (x : Q) : Q := Qabs x.

(** [Math.round]: the nearest integer, a tie going up. *)
Definition Math_round (x : Q) : Z := Qfloor (x + (1 # 2)).

(** *** binary64

    [2^k] for any integer [k]. *)
Definition pow2 (k : Z) : Q :=
  if (0 <=? k)%Z then inject_Z (2 ^ k) else 1 # Z.to_pos (2 ^ (- k)).

(** The integer nearest to [num / den], for [den > 0], a tie going to the
    even one. *)
Definition nearest_even (num den : Z) : Z :=
  let q := (num / den)%Z in
  let r := (num mod den)%Z in
  match (2 * r ?= den)%Z with
  | Lt => q
  | Gt => (q + 1)%Z
  | Eq => if Z.even q then q else (q + 1)%Z
  end.

(** The [e] with [2^e <= n/d < 2^(e+1)], for [n, d > 0]. *)
Definition exponent (n d : Z) : Z :=
  let e := (Z.log2 n - Z.log2 d)%Z in
  if (if (0 <=? e)%Z then (n <? d * 2 ^ e)%Z else (n * 2 ^ (- e) <? d)%Z)
  then (e - 1)%Z else e.

(** The double nearest to [n/d > 0]: 53 significant bits, the exponent not
    below [-1022] (subnormals); overflow to [Infinity] is left out. *)
Definition round_pos (n d : positive) : Q :=
  let e := Z.max (exponent (Zpos n) (Zpos d)) (-1022) in
  let k := (e - 52)%Z in
  let m := if (0 <=? k)%Z
           then nearest_even (Zpos n) (Zpos d * 2 ^ k)
           else nearest_even (Zpos n * 2 ^ (- k)) (Zpos d) in
  inject_Z m * pow2 k.

(** The double nearest to [x]. *)
Definition binary64 (x : Q) : Q :=
  let r := Qred x in
  match Qnum r with
  | Z0 => 0
  | Zpos n => round_pos n (Qden r)
  | Zneg n => - round_pos n (Qden r)
  end.

(** A decimal literal of the source, and the four operations on doubles. *)
Definition number (x : Q) : Q := binary64 x.
Definition add (x y : Q) : Q := binary64 (x + y).
Definition sub (x y : Q) : Q := binary64 (x - y).
Definition mul (x y : Q) : Q := binary64 (x * y).
Definition div (x y : Q) : Q := binary64 (x / y).

End Js.

(** ** The Tone.js transport, as far as the engine touches it *)

Module Tone.

Inductive PlaybackState : Set := started | stopped | paused.

Definition PlaybackState_eqb (a b : PlaybackState) : bool :=
  match a, b with
  | started, started | stopped, stopped | paused, paused => true
  | _, _ => false
  end.

(** [state], [seconds] and [bpm.value] are what the getters return at the
    instant of the call; [scheduled] is the audio-context time of the start
    that [start(time)] put on the timeline for later. *)
Record Transport : Set := mkTransport {
  state : PlaybackState;
  seconds : Q;
  bpm_value : Q;
  scheduled : option Q
}.

Definition is_started (t : Transport) : bool :=
  PlaybackState_eqb (state t) started.

(** [transport.pause()]: only a started transport changes state. *)
Definition pause (t : Transport) : Transport :=
  if is_started t
  then mkTransport paused (seconds t) (bpm_value t) (scheduled t)
  else t.

(** [transport.start()]: a started transport ignores it; a start already
    on the timeline for later stays there. *)
Definition start (t : Transport) : Transport :=
  if is_started t
  then t
  else mkTransport started (seconds t) (bpm_value t) (scheduled t).

(** [transport.start(time)] with [time] in the future: the state stays as
    it is until [time]; an earlier pending start wins. *)
Definition start_at (time : Q) (t : Transport) : Transport :=
  if is_started t
  then t
  else
    match scheduled t with
    | Some t0 =>
        if Qle_bool t0 time then t
        else mkTransport (state t) (seconds t) (bpm_value t) (Some time)
    | None => mkTransport (state t) (seconds t) (bpm_value t) (Some time)
    end.

(** [transport.stop()]: back to the beginning. *)
Definition stop (t : Transport) : Transport :=
  mkTransport stopped 0 (bpm_value t) None.

(** [transport.seconds = s]. *)
Definition set_seconds (s : Q) (t : Transport) : Transport :=
  mkTransport (state t) s (bpm_value t) (scheduled t).

(** [transport.bpm.value = b]. *)
Definition set_bpm (b : Q) (t : Transport) : Transport :=
  mkTransport (state t) (seconds t) b (scheduled t).

(** The transport [dt >= 0] seconds of audio time after the reading [t]
    taken at audio time [at_]: a started transport advances, a pending start
    fires when its time is reached, anything else holds its position. *)
Definition elapse (at_ dt : Q) (t : Transport) : Transport :=
  if is_started t
  then mkTransport started (seconds t + dt) (bpm_value t) (scheduled t)
  else
    match scheduled t with
    | Some t0 =>
        if Qle_bool t0 (at_ + dt)
        then mkTransport started (seconds t + (at_ + dt - t0)) (bpm_value t) None
        else t
    | None => t
    end.

End Tone.

(** ** Calls on collaborators *)

Inductive Event : Set :=
| ConsoleLog (msg : string) (args : list Q)
| ConsoleWarn (msg : string)
| BpmChangeCallback (cb : nat) (bpm : Z)
| TransportSetBpm (b : Q)
| TransportSetSeconds (s : Q)
| TransportStart (time : option Q)
| TransportPause
| TransportStop
| TimingObjectUpdate (velocity position : Q)
| SetTimeout (delay : Q)
| ClearTimeout (handle : Z).

(** ** herehear: the timestamp/offset engine *)

Module HereHear.

(** [TransportState]: the snapshot shared through the document. *)
Record TransportState : Set := mkState {
  startTime : option Q;
  bpm : Q;
  isPlaying : bool;
  pausedPosition : Q
}.

(** The fields of the [TimingSync] object.  The registered callback is a
    closure of the caller; it is known by a tag and every invocation is
    recorded with its argument. *)
Record TimingSync : Set := mkEngine {
  updateInterval : option Z;
  isInitialized : bool;
  onBpmChangeCallback : option nat;
  currentState : TransportState
}.

(** The object [getInstance] constructs when there is none. *)
Definition fresh : TimingSync :=
  mkEngine None false None (mkState None 120 false 0).

Record World : Set := mkWorld {
  engine : TimingSync;
  transport : Tone.Transport;
  events : list Event
}.

(** *** State passing *)

Definition M (A : Type) : Type := World -> A * World.

Definition ret {A : Type} (a : A) : M A := fun w => (a, w).

Definition bind {A B : Type} (m : M A) (k : A -> M B) : M B :=
  fun w => let (a, w') := m w in k a w'.

Declare Scope engine_scope.
Delimit Scope engine_scope with engine.
Notation "x <- m ;; k" := (bind m (fun x => k))
  (at level 61, m at next level, right associativity) : engine_scope.
Notation "m ;; k" := (bind m (fun _ => k))
  (at level 61, right associativity) : engine_scope.
Local Open Scope engine_scope.

Definition this : M TimingSync := fun w => (engine w, w).

Definition Transport : M Tone.Transport := fun w => (transport w, w).

Definition emit (ev : Event) : M unit :=
  fun w => (tt, mkWorld (engine w) (transport w) (events w ++ [ev])).

Definition update_engine (f : TimingSync -> TimingSync) : M unit :=
  fun w => (tt, mkWorld (f (engine w)) (transport w) (events w)).

Definition update_transport (f : Tone.Transport -> Tone.Transport) : M unit :=
  fun w => (tt, mkWorld (engine w) (f (transport w)) (events w)).

Definition when (b : bool) (m : M unit) : M unit :=
  if b then m else ret tt.

(** Assignments to the fields of [this] and of [this.currentState]. *)
Definition set_updateInterval (h : option Z) : M unit :=
  update_engine (fun e =>
    mkEngine h (isInitialized e) (onBpmChangeCallback e) (currentState e)).
Definition set_isInitialized (b : bool) : M unit :=
  update_engine (fun e =>
    mkEngine (updateInterval e) b (onBpmChangeCallback e) (currentState e)).
Definition set_onBpmChangeCallback (cb : option nat) : M unit :=
  update_engine (fun e =>
    mkEngine (updateInterval e) (isInitialized e) cb (currentState e)).
Definition set_currentState (s : TransportState) : M unit :=
  update_engine (fun e =>
    mkEngine (updateInterval e) (isInitialized e) (onBpmChangeCallback e) s).
Definition update_currentState (f : TransportState -> TransportState) : M unit :=
  update_engine (fun e =>
    mkEngine (updateInterval e) (isInitialized e) (onBpmChangeCallback e)
             (f (currentState e))).
Definition set_startTime (x : option Q) : M unit :=
  update_currentState (fun s => mkState x (bpm s) (isPlaying s) (pausedPosition s)).
Definition set_bpm (b : Q) : M unit :=
  update_currentState (fun s => mkState (startTime s) b (isPlaying s) (pausedPosition s)).
Definition set_isPlaying (p : bool) : M unit :=
  update_currentState (fun s => mkState (startTime s) (bpm s) p (pausedPosition s)).
Definition set_pausedPosition (x : Q) : M unit :=
  update_currentState (fun s => mkState (startTime s) (bpm s) (isPlaying s) x).

(** Calls on the transport: each one is recorded and takes effect. *)
Definition transport_set_bpm (b : Q) : M unit :=
  emit (TransportSetBpm b) ;; update_transport (Tone.set_bpm b).
Definition transport_set_seconds (s : Q) : M unit :=
  emit (TransportSetSeconds s) ;; update_transport (Tone.set_seconds s).
Definition transport_start : M unit :=
  emit (TransportStart None) ;; update_transport Tone.start.
Definition transport_start_at (time : Q) : M unit :=
  emit (TransportStart (Some time)) ;; update_transport (Tone.start_at time).
Definition transport_pause : M unit :=
  emit TransportPause ;; update_transport Tone.pause.

(** A [number | null] used as an operand: [null] counts as [0]. *)
Definition num (x : option Q) : Q :=
  match x with
  | Some q => q
  | None => 0
  end.

(** The position the timeline implies at wall-clock time [now] for a
    reference instant [s]: [(now - s) / 1000] seconds. *)
Definition position_at (now s : Q) : Q := (now - s) / 1000.

(** The position the engine computes at wall-clock time [now] for a
    reference instant [s]: [(now - s) / 1000], in binary64. *)
Definition expected_position (now s : Q) : Q := Js.div (Js.sub now s) 1000.

(** The drift it computes for a clock that reads [actual]. *)
Definition drift_of (actual expected : Q) : Q :=
  Js.Math_abs (Js.sub actual expected).

(** The literals [0.05] of the drift tests and [0.1] of the tempo tests. *)
Definition tolerance : Q := Js.number 0.05.
Definition epsilon : Q := Js.number 0.1.

(** The smooth-seek lookahead, [0.05] s. *)
Definition lookahead : Q := 0.05.

(** *** Methods *)

(** [seekTo(targetSeconds)], with [tnow] the reading of [Tone.now()]. *)
Definition seekTo (tnow : Q) (targetSeconds : Q) : M unit :=
  transport_pause ;;
  transport_set_seconds (targetSeconds + lookahead) ;;
  transport_start_at (tnow + lookahead).

(** [syncFromRemote(state)], with [now] the reading of [Date.now()]. *)
Definition syncFromRemote (now tnow : Q) (state : TransportState) : M unit :=
  e <- this ;;
  if negb (isInitialized e) then ret tt else
  let prevBpm := bpm (currentState e) in
  let wasPlaying := isPlaying (currentState e) in
  set_currentState state ;;
  when (Js.gt (Js.Math_abs (Js.sub prevBpm (bpm state))) epsilon)
    (match onBpmChangeCallback e with
     | Some cb => emit (BpmChangeCallback cb (Js.Math_round (bpm state)))
     | None => ret tt
     end) ;;
  transport_set_bpm (bpm state) ;;
  t <- Transport ;;
  if isPlaying state && Js.truthy (startTime state) then
    let elapsed := Js.sub now (num (startTime state)) in
    let positionInSeconds := Js.div elapsed 1000 in
    if negb wasPlaying || negb (Tone.is_started t) then
      emit (ConsoleLog "[TimingSync] Starting Transport" []) ;;
      transport_set_seconds positionInSeconds ;;
      transport_start
    else
      let drift := Js.Math_abs (Js.sub (Tone.seconds t) positionInSeconds) in
      when (Js.gt drift tolerance)
        (emit (ConsoleLog "[TimingSync] syncFromRemote correcting drift: ms"
                          [Js.mul drift 1000]) ;;
         seekTo tnow positionInSeconds)
  else
    when (Tone.is_started t)
      (emit (ConsoleLog "[TimingSync] Pausing Transport" []) ;;
       transport_pause).

(** [syncToTransport()]. *)
Definition syncToTransport (now tnow : Q) : M unit :=
  e <- this ;;
  if negb (isInitialized e)
     || negb (isPlaying (currentState e))
     || negb (Js.truthy (startTime (currentState e)))
  then ret tt else
  t <- Transport ;;
  let elapsed := Js.sub now (num (startTime (currentState e))) in
  let expectedPosition := Js.div elapsed 1000 in
  let currentPosition := Tone.seconds t in
  let drift := Js.Math_abs (Js.sub currentPosition expectedPosition) in
  when (Js.gt drift tolerance)
    (emit (ConsoleLog "[TimingSync] Correcting drift: ms" [Js.mul drift 1000]) ;;
     seekTo tnow expectedPosition).

(** The delay of the next wake-up for a reading [r] of [Math.random()], as
    the rational the expression denotes. *)
Definition baseInterval : Q := 250.
Definition jitterRange : Q := 50.
Definition jitter (r : Q) : Q :=
  baseInterval + (r * jitterRange * 2 - jitterRange).

(** The closure [sync] of [startSyncLoop]: one wake-up of the loop.  [h] is
    the handle [window.setTimeout] returns. *)
Definition sync (now tnow r : Q) (h : Z) : M unit :=
  syncToTransport now tnow ;;
  emit (SetTimeout (jitter r)) ;;
  set_updateInterval (Some h).

Definition startSyncLoop (now tnow r : Q) (h : Z) : M unit :=
  sync now tnow r h.

(** [initialize(bpm)]. *)
Definition initialize (b : Q) (now tnow r : Q) (h : Z) : M unit :=
  e <- this ;;
  if isInitialized e then
    emit (ConsoleLog "TimingSync already initialized" [])
  else
    emit (ConsoleLog "Initializing TimingSync with timestamp-based sync" []) ;;
    set_bpm b ;;
    set_isInitialized true ;;
    transport_set_bpm b ;;
    startSyncLoop now tnow r h ;;
    emit (ConsoleLog "TimingSync ready!" []).

Definition not_initialized : M TransportState :=
  emit (ConsoleWarn "TimingSync not initialized") ;;
  e <- this ;;
  ret (currentState e).

Definition snapshot : M TransportState :=
  e <- this ;;
  ret (currentState e).

(** [setBPM(bpm)]. *)
Definition setBPM (b : Q) : M TransportState :=
  e <- this ;;
  if negb (isInitialized e) then not_initialized else
  set_bpm b ;;
  transport_set_bpm b ;;
  emit (ConsoleLog "Updated BPM:" [b]) ;;
  snapshot.

(** [start()]. *)
Definition start (now : Q) : M TransportState :=
  e <- this ;;
  if negb (isInitialized e) then not_initialized else
  transport_set_seconds 0 ;;
  set_startTime (Some now) ;;
  set_isPlaying true ;;
  set_pausedPosition 0 ;;
  transport_start ;;
  emit (ConsoleLog "Started playback from 0 at:" [now]) ;;
  snapshot.

(** [resume()]. *)
Definition resume (now : Q) : M TransportState :=
  e <- this ;;
  if negb (isInitialized e) then not_initialized else
  if isPlaying (currentState e) then
    emit (ConsoleLog "Already playing" []) ;;
    snapshot
  else
    let pos := pausedPosition (currentState e) in
    transport_set_seconds pos ;;
    set_startTime (Some (now - pos * 1000)) ;;
    set_isPlaying true ;;
    transport_start ;;
    emit (ConsoleLog "Resumed playback from s" [pos]) ;;
    snapshot.

(** [pause()]. *)
Definition pause (now : Q) : M TransportState :=
  e <- this ;;
  if negb (isInitialized e) then not_initialized else
  when (Js.truthy (startTime (currentState e)))
    (set_pausedPosition ((now - num (startTime (currentState e))) / 1000)) ;;
  set_isPlaying false ;;
  set_startTime None ;;
  transport_pause ;;
  e' <- this ;;
  emit (ConsoleLog "Paused at s" [pausedPosition (currentState e')]) ;;
  snapshot.

(** [reset()]. *)
Definition reset (now : Q) : M TransportState :=
  e <- this ;;
  if negb (isInitialized e) then not_initialized else
  transport_set_seconds 0 ;;
  set_pausedPosition 0 ;;
  when (isPlaying (currentState e)) (set_startTime (Some now)) ;;
  emit (ConsoleLog "Reset position to 0" []) ;;
  snapshot.

(** [getState()]. *)
Definition getState : M TransportState := snapshot.

(** [onBpmChange(callback)]. *)
Definition onBpmChange (cb : nat) : M unit :=
  set_onBpmChangeCallback (Some cb).

(** [destroy()].  It also clears the static [instance], so that the next
    [getInstance()] constructs [fresh]. *)
Definition destroy : M unit :=
  e <- this ;;
  match updateInterval e with
  | Some h => emit (ClearTimeout h) ;; set_updateInterval None
  | None => ret tt
  end ;;
  set_isInitialized false ;;
  set_onBpmChangeCallback None.

(** *** What a call did *)

(** The world after a call, and the calls on collaborators it added. *)
Definition run {A : Type} (m : M A) (w : World) : World := snd (m w).
Definition result {A : Type} (m : M A) (w : World) : A := fst (m w).

(** The two ways the engine moves the clock to a position [p]. *)
Definition hard_seek (p : Q) : list Event :=
  [TransportSetSeconds p; TransportStart None].
Definition smooth_seek (tnow p : Q) : list Event :=
  [TransportPause; TransportSetSeconds (p + lookahead);
   TransportStart (Some (tnow + lookahead))].

(** The calls on the transport among [evs], in order. *)
Definition is_transport_call (ev : Event) : bool :=
  match ev with
  | TransportSetBpm _ | TransportSetSeconds _ | TransportStart _
  | TransportPause | TransportStop => true
  | _ => false
  end.
Definition transport_calls (evs : list Event) : list Event :=
  filter is_transport_call evs.

(** The calls that move the clock: every transport call but the tempo. *)
Definition is_clock_call (ev : Event) : bool :=
  match ev with
  | TransportSetSeconds _ | TransportStart _ | TransportPause | TransportStop => true
  | _ => false
  end.
Definition clock_calls (evs : list Event) : list Event :=
  filter is_clock_call evs.

(** The invocations of the tempo-change callback among [evs]. *)
Definition is_callback (ev : Event) : bool :=
  match ev with
  | BpmChangeCallback _ _ => true
  | _ => false
  end.
Definition callbacks (evs : list Event) : list Event :=
  filter is_callback evs.

(** The timers armed among [evs]. *)
Definition is_timeout (ev : Event) : bool :=
  match ev with
  | SetTimeout _ => true
  | _ => false
  end.
Definition timeouts (evs : list Event) : list Event :=
  filter is_timeout evs.

(** The calls recorded in [w'] since [w]. *)
Definition new_events (w w' : World) : list Event :=
  skipn (List.length (events w)) (events w').

(** *** Another user of the same transport

    [SoundPlayer.triggerSound] on a [Tone.Loop] or [Tone.Pattern]
    (SoundPlayer.tsx): [Tone.getTransport().start()], without a word to the
    engine. *)
Definition SoundPlayer_triggerSound_loop : M unit := transport_start.

(** Audio time passing between two calls: [dt] seconds from time [at_]. *)
Definition tick (at_ dt : Q) : M unit := update_transport (Tone.elapse at_ dt).

(** *** Sample runs *)

(** A transport nobody has touched, and the engine [getInstance] has just
    constructed. *)
Definition silent : Tone.Transport := Tone.mkTransport Tone.stopped 0 120 None.
Definition created : World := mkWorld fresh silent [].

(** After [initialize(120)] at wall-clock time [1000]. *)
Definition ready : World := run (initialize 120 1000 0 (1 # 2) 1%Z) created.

(** [ready], after the sound player has started a loop. *)
Definition loop_running : World := run SoundPlayer_triggerSound_loop ready.

(** [ready], after [start()] at wall-clock time [2000]. *)
Definition playing : World := run (start 2000) ready.

(** A snapshot of a timeline that has been playing since [5000]. *)
Definition remote_playing : TransportState := mkState (Some 5000) 140 true 0.

(** The same at the tempo the literal [140.6] denotes. *)
Definition remote_faster : TransportState :=
  mkState (Some 5000) (Js.number 140.6) true 0.

(** *** A caller issuing commands *)

(** The five commands of the user interface, and a session of them, each
    with the reading of [Date.now()] its handler makes. *)
Inductive Command : Set :=
| Start
| Resume
| Pause
| Reset
| SetBPM (b : Q).

Definition handle (c : Command) (now : Q) : M TransportState :=
  match c with
  | Start => start now
  | Resume => resume now
  | Pause => pause now
  | Reset => reset now
  | SetBPM b => setBPM b
  end.

Fixpoint handle_all (session : list (Command * Q)) : M unit :=
  match session with
  | [] => ret tt
  | (c, now) :: rest => handle c now ;; handle_all rest
  end.

(** The readings of a session never go back from [t]. *)
Fixpoint nondecreasing (t : Q) (session : list (Command * Q)) : Prop :=
  match session with
  | [] => True
  | (_, now) :: rest => t <= now /\ nondecreasing now rest
  end.



End HereHear.

(** ** herehear, the earlier revision of the engine

    The revision of [TimingSync.ts] before the smooth seek: the same fields
    and handlers, and these two methods. *)

Module Part000.
Import HereHear.
Local Open Scope engine_scope.

(** [syncFromRemote(state)]. *)
Definition syncFromRemote (now : Q) (state : TransportState) : M unit :=
  e <- this ;;
  if negb (isInitialized e) then ret tt else
  let prevBpm := bpm (currentState e) in
  set_currentState state ;;
  when (Js.gt (Js.Math_abs (Js.sub prevBpm (bpm state))) epsilon)
    (match onBpmChangeCallback e with
     | Some cb => emit (BpmChangeCallback cb (Js.Math_round (bpm state)))
     | None => ret tt
     end) ;;
  transport_set_bpm (bpm state) ;;
  if isPlaying state && Js.truthy (startTime state) then
    let elapsed := Js.sub now (num (startTime state)) in
    let positionInSeconds := Js.div elapsed 1000 in
    transport_set_seconds positionInSeconds ;;
    t <- Transport ;;
    when (negb (Tone.is_started t))
      (emit (ConsoleLog "[TimingSync] Starting Transport" []) ;;
       transport_start)
  else
    t <- Transport ;;
    when (Tone.is_started t)
      (emit (ConsoleLog "[TimingSync] Pausing Transport" []) ;;
       transport_pause).

(** [syncToTransport()]. *)
Definition syncToTransport (now : Q) : M unit :=
  e <- this ;;
  if negb (isInitialized e)
     || negb (isPlaying (currentState e))
     || negb (Js.truthy (startTime (currentState e)))
  then ret tt else
  t <- Transport ;;
  let elapsed := Js.sub now (num (startTime (currentState e))) in
  let expectedPosition := Js.div elapsed 1000 in
  let currentPosition := Tone.seconds t in
  let drift := Js.Math_abs (Js.sub currentPosition expectedPosition) in
  when (Js.gt drift tolerance)
    (emit (ConsoleLog "[TimingSync] Correcting drift: ms" [Js.mul drift 1000]) ;;
     transport_set_seconds expectedPosition).

End Part000.

(** ** gpsound: the kinematic-vector engine *)

Module GPSound.

(** The motion vector [timingObject.query()] returns. *)
Record Vector : Set := mkVector {
  position : Q;
  velocity : Q;
  timestamp : Q;
  acceleration : Q
}.

(** The fields of the [TimingSync] object.  The timing object is a
    collaborator known by a tag; the vector a [query()] returns is a reading
    of the host. *)
Record TimingSync : Set := mkEngine {
  timingObject : option nat;
  updateInterval : option Z;
  isInitialized : bool;
  onBpmChangeCallback : option nat
}.

Record World : Set := mkWorld {
  engine : TimingSync;
  transport : Tone.Transport;
  events : list Event
}.

(** *** State passing with exceptions

    A call either returns or throws; what it changed before throwing stays
    changed. *)

Inductive Completion (A : Type) : Type :=
| Normal (a : A)
| Throw (message : string).
Arguments Normal {A} a.
Arguments Throw {A} message.

Definition M (A : Type) : Type := World -> Completion A * World.

Definition ret {A : Type} (a : A) : M A := fun w => (Normal a, w).

Definition throw {A : Type} (message : string) : M A :=
  fun w => (Throw message, w).

Definition bind {A B : Type} (m : M A) (k : A -> M B) : M B :=
  fun w =>
    match m w with
    | (Normal a, w') => k a w'
    | (Throw message, w') => (Throw message, w')
    end.

Declare Scope vector_scope.
Delimit Scope vector_scope with vector.
Notation "x <- m ;; k" := (bind m (fun x => k))
  (at level 61, m at next level, right associativity) : vector_scope.
Notation "m ;; k" := (bind m (fun _ => k))
  (at level 61, right associativity) : vector_scope.
Local Open Scope vector_scope.

Definition this : M TimingSync := fun w => (Normal (engine w), w).

Definition Transport : M Tone.Transport := fun w => (Normal (transport w), w).

Definition emit (ev : Event) : M unit :=
  fun w => (Normal tt, mkWorld (engine w) (transport w) (events w ++ [ev])).

Definition update_transport (f : Tone.Transport -> Tone.Transport) : M unit :=
  fun w => (Normal tt, mkWorld (engine w) (f (transport w)) (events w)).

Definition update_engine (f : TimingSync -> TimingSync) : M unit :=
  fun w => (Normal tt, mkWorld (f (engine w)) (transport w) (events w)).

Definition when (b : bool) (m : M unit) : M unit :=
  if b then m else ret tt.

Definition transport_set_bpm (b : Q) : M unit :=
  emit (TransportSetBpm b) ;; update_transport (Tone.set_bpm b).
Definition transport_set_seconds (s : Q) : M unit :=
  emit (TransportSetSeconds s) ;; update_transport (Tone.set_seconds s).
Definition transport_start : M unit :=
  emit (TransportStart None) ;; update_transport Tone.start.
Definition transport_stop : M unit :=
  emit TransportStop ;; update_transport Tone.stop.

(** *** Methods *)

(** [translateVector(vector)], with [pnow] the reading of
    [performance.now()]; the result is the pair [{ position, velocity }]. *)
Definition translateVector (pnow : Q) (vector : Vector) : M (Q * Q) :=
  if Js.nonzero (acceleration vector) then
    throw "Acceleration not supported"
  else
    let now := pnow / 1000 in
    let elapsed := now - timestamp vector in
    let currentPosition := position vector + velocity vector * elapsed in
    ret (currentPosition, velocity vector).

(** [syncFromTimingObject()], with [queried] the vector that
    [this.timingObject.query()] returns. *)
Definition syncFromTimingObject (pnow : Q) (queried : Vector) : M unit :=
  e <- this ;;
  match timingObject e with
  | None => ret tt
  | Some _ =>
      let vector := queried in
      pv <- translateVector pnow vector ;;
      let position := fst pv in
      let velocity := snd pv in
      let bpm := Js.mul velocity 60 in
      t <- Transport ;;
      when (Js.gt bpm 0
            && Js.gt (Js.Math_abs (Js.sub (Tone.bpm_value t) bpm)) (Js.number 0.1))
        (match onBpmChangeCallback e with
         | Some cb => emit (BpmChangeCallback cb (Js.Math_round bpm))
         | None => ret tt
         end) ;;
      if Js.gt velocity 0 then
        transport_set_seconds (Js.div position velocity) ;;
        transport_set_bpm bpm ;;
        t' <- Transport ;;
        when (negb (Tone.is_started t'))
          (emit (ConsoleLog "[TimingSync] Starting Transport" []) ;;
           transport_start)
      else
        t' <- Transport ;;
        when (negb (Tone.PlaybackState_eqb (Tone.state t') Tone.stopped))
          (emit (ConsoleLog "[TimingSync] Stopping Transport" []) ;;
           transport_stop)
  end.

(** The closure [sync] of [startSyncLoop]: one wake-up of the loop.  The
    delay is the double the engine computes from the reading [r] of
    [Math.random()]. *)
Definition baseInterval : Q := 250.
Definition jitterRange : Q := 50.
Definition jitter (r : Q) : Q :=
  Js.add baseInterval (Js.sub (Js.mul (Js.mul r jitterRange) 2) jitterRange).

Definition sync (pnow : Q) (queried : Vector) (r : Q) (h : Z) : M unit :=
  syncFromTimingObject pnow queried ;;
  emit (SetTimeout (jitter r)) ;;
  update_engine (fun e =>
    mkEngine (timingObject e) (Some h) (isInitialized e) (onBpmChangeCallback e)).

(** [setBPM(bpm)]: [current] is the vector the first [query()] returns,
    [queried] the one the call of [syncFromTimingObject] sees. *)
Definition setBPM (b : Q) (pnow : Q) (current queried : Vector) : M unit :=
  e <- this ;;
  match timingObject e with
  | Some _ =>
      if isInitialized e then
        let velocity := b / 60 in
        emit (TimingObjectUpdate velocity (position current)) ;;
        syncFromTimingObject pnow queried ;;
        emit (ConsoleLog "Updated TimingObject BPM:" [b])
      else emit (ConsoleWarn "TimingObject not initialized")
  | None => emit (ConsoleWarn "TimingObject not initialized")
  end.

(** [play()]: [current] is the vector the first [query()] returns. *)
Definition play (pnow : Q) (current queried : Vector) : M unit :=
  e <- this ;;
  match timingObject e with
  | Some _ =>
      if isInitialized e then
        if Js.gt (velocity current) 0 then
          emit (ConsoleLog "Playback already active, syncing to existing BPM" []) ;;
          syncFromTimingObject pnow queried
        else
          t <- Transport ;;
          let currentBPM := Tone.bpm_value t in
          emit (TimingObjectUpdate
                  (currentBPM / 60)
                  (if Js.nonzero (position current) then position current else 0)) ;;
          syncFromTimingObject pnow queried ;;
          emit (ConsoleLog "Started playback with BPM:" [currentBPM])
      else emit (ConsoleWarn "TimingObject not initialized")
  | None => emit (ConsoleWarn "TimingObject not initialized")
  end.

(** [pause()]. *)
Definition pause (pnow : Q) (current queried : Vector) : M unit :=
  e <- this ;;
  match timingObject e with
  | Some _ =>
      if isInitialized e then
        emit (TimingObjectUpdate 0 (position current)) ;;
        syncFromTimingObject pnow queried ;;
        emit (ConsoleLog "Paused playback" [])
      else emit (ConsoleWarn "TimingObject not initialized")
  | None => emit (ConsoleWarn "TimingObject not initialized")
  end.

(** [getState()]: [null] without a timing object. *)
Record Status : Set := mkStatus {
  status_isPlaying : bool;
  status_bpm : Q;
  status_position : Q
}.

Definition getState (queried : Vector) : M (option Status) :=
  e <- this ;;
  match timingObject e with
  | None => ret None
  | Some _ =>
      let vector := queried in
      ret (Some (mkStatus (Js.nonzero (velocity vector))
                          (velocity vector * 60)
                          (position vector)))
  end.

(** [destroy()]. *)
Definition destroy : M unit :=
  e <- this ;;
  match updateInterval e with
  | Some h =>
      emit (ClearTimeout h) ;;
      update_engine (fun e =>
        mkEngine (timingObject e) None (isInitialized e) (onBpmChangeCallback e))
  | None => ret tt
  end ;;
  update_engine (fun e =>
    mkEngine None (updateInterval e) (isInitialized e) (onBpmChangeCallback e)) ;;
  update_engine (fun e =>
    mkEngine (timingObject e) (updateInterval e) false (onBpmChangeCallback e)) ;;
  update_engine (fun e =>
    mkEngine (timingObject e) (updateInterval e) (isInitialized e) None).

(** *** What a call did *)

Definition new_events (w w' : World) : list Event :=
  skipn (List.length (events w)) (events w').

Definition is_callback (ev : Event) : bool :=
  match ev with
  | BpmChangeCallback _ _ => true
  | _ => false
  end.
Definition callbacks (evs : list Event) : list Event :=
  filter is_callback evs.

Definition is_timeout (ev : Event) : bool :=
  match ev with
  | SetTimeout _ => true
  | _ => false
  end.
Definition timeouts (evs : list Event) : list Event :=
  filter is_timeout evs.

Definition is_update (ev : Event) : bool :=
  match ev with
  | TimingObjectUpdate _ _ => true
  | _ => false
  end.
Definition updates (evs : list Event) : list Event :=
  filter is_update evs.

End GPSound.


(** * Properties *)

(** ** Numbers *)

Lemma gt_true (x y : Q) : Js.gt x y = true <-> y < x.
Proof.
  unfold Js.gt. rewrite negb_true_iff, <- not_true_iff_false, Qle_bool_iff.
  split; [apply Qnot_le_lt | apply Qlt_not_le].
Qed.

Lemma gt_false (x y : Q) : Js.gt x y = false <-> x <= y.
Proof.
  unfold Js.gt. rewrite negb_false_iff. apply Qle_bool_iff.
Qed.

Lemma nonzero_true (x : Q) : Js.nonzero x = true <-> ~ x == 0.
Proof.
  unfold Js.nonzero. rewrite negb_true_iff, <- not_true_iff_false, Qeq_bool_iff.
  tauto.
Qed.

Lemma nonzero_false (x : Q) : Js.nonzero x = false <-> x == 0.
Proof.
  unfold Js.nonzero. rewrite negb_false_iff. apply Qeq_bool_iff.
Qed.

(** [Math_round x] is the integer within a half of [x], a tie going up. *)
Lemma Math_round_nearest (x : Q) :
  x - (1 # 2) < inject_Z (Js.Math_round x) /\ inject_Z (Js.Math_round x) <= x + (1 # 2).
Proof.
  unfold Js.Math_round. split.
  - pose proof (Qlt_floor (x + (1 # 2))) as H.
    rewrite inject_Z_plus in H. change (inject_Z 1) with 1 in H. lra.
  - apply Qfloor_le.
Qed.

(** *** binary64 *)

(** Equal rationals round to the same double. *)
Lemma binary64_wd (x y : Q) : x == y -> Js.binary64 x = Js.binary64 y.
Proof.
  intros H. unfold Js.binary64. rewrite (Qred_complete x y H). reflexivity.
Qed.

Lemma binary64_zero (x : Q) : x == 0 -> Js.binary64 x = 0.
Proof. intros H. rewrite (binary64_wd x 0 H). reflexivity. Qed.

Lemma nearest_even_nonneg (num den : Z) :
  (0 <= num)%Z -> (0 < den)%Z -> (0 <= Js.nearest_even num den)%Z.
Proof.
  intros Hn Hd. unfold Js.nearest_even.
  assert (0 <= num / den)%Z by (apply Z.div_pos; assumption).
  destruct (2 * (num mod den) ?= den)%Z; [destruct (Z.even _) | |]; lia.
Qed.

Lemma pow2_pos (k : Z) : 0 < Js.pow2 k.
Proof.
  unfold Js.pow2. destruct (0 <=? k)%Z eqn:E.
  - apply Z.leb_le in E. unfold Qlt. cbn.
    assert (0 < 2 ^ k)%Z by (apply Z.pow_pos_nonneg; lia). lia.
  - reflexivity.
Qed.

Lemma round_pos_nonneg (n d : positive) : 0 <= Js.round_pos n d.
Proof.
  unfold Js.round_pos.
  set (k := (Z.max (Js.exponent (Z.pos n) (Z.pos d)) (-1022) - 52)%Z).
  apply Qmult_le_0_compat; [| apply Qlt_le_weak, pow2_pos].
  change 0 with (inject_Z 0). rewrite <- Zle_Qle.
  destruct (0 <=? k)%Z eqn:E.
  - apply Z.leb_le in E. apply nearest_even_nonneg; [lia |].
    assert (0 < 2 ^ k)%Z by (apply Z.pow_pos_nonneg; lia). lia.
  - apply Z.leb_gt in E. apply nearest_even_nonneg; [| lia].
    assert (0 < 2 ^ (- k))%Z by (apply Z.pow_pos_nonneg; lia). lia.
Qed.

(** Rounding keeps the sign and commutes with negation. *)
Lemma binary64_nonpos (x : Q) : x <= 0 -> Js.binary64 x <= 0.
Proof.
  intros H. unfold Js.binary64.
  pose proof (Qred_correct x) as Hr.
  destruct (Qred x) as [rn rd] eqn:E. cbn [Qnum Qden].
  destruct rn as [| n | n].
  - apply Qle_refl.
  - exfalso. rewrite <- Hr in H. unfold Qle in H. cbn in H. lia.
  - pose proof (round_pos_nonneg n rd). lra.
Qed.

Lemma binary64_nonneg (x : Q) : 0 <= x -> 0 <= Js.binary64 x.
Proof.
  intros H. unfold Js.binary64.
  pose proof (Qred_correct x) as Hr.
  destruct (Qred x) as [rn rd] eqn:E. cbn [Qnum Qden].
  destruct rn as [| n | n].
  - apply Qle_refl.
  - apply round_pos_nonneg.
  - exfalso. rewrite <- Hr in H. unfold Qle in H. cbn in H. lia.
Qed.

Lemma binary64_opp (x : Q) : Js.binary64 (- x) == - Js.binary64 x.
Proof.
  unfold Js.binary64. rewrite Qred_opp.
  destruct (Qred x) as [rn rd]. cbn [Qopp Qnum Qden].
  destruct rn as [| n | n]; cbn [Z.opp].
  - reflexivity.
  - reflexivity.
  - rewrite Qopp_involutive. reflexivity.
Qed.

(** The difference of a double with itself is [0], and the magnitude of a
    difference does not depend on the order of its operands. *)
Lemma sub_self (x : Q) : Js.sub x x = 0.
Proof. unfold Js.sub. apply binary64_zero. ring. Qed.

Lemma abs_sub_sym (x y : Q) :
  Js.Math_abs (Js.sub x y) == Js.Math_abs (Js.sub y x).
Proof.
  unfold Js.Math_abs, Js.sub.
  rewrite (binary64_wd (y - x) (- (x - y))) by ring.
  rewrite binary64_opp. symmetry. apply Qabs_opp.
Qed.

(** *** Rounding is monotone *)

Lemma pow2_Qpower (k : Z) : Js.pow2 k == 2 ^ k.
Proof.
  unfold Js.pow2. change 2 with (inject_Z 2).
  destruct (Z.leb_spec 0 k) as [H | H].
  - symmetry. rewrite <- Zpower_Qpower by assumption. reflexivity.
  - assert (Hp : (0 < 2 ^ (- k))%Z) by (apply Z.pow_pos_nonneg; lia).
    replace k with (- (- k))%Z at 2 by lia.
    rewrite Qpower_opp. rewrite <- Zpower_Qpower by lia.
    unfold Qeq, Qinv, inject_Z. cbn [Qnum Qden].
    destruct (2 ^ (- k))%Z as [| p | p] eqn:E; try lia.
    cbn. lia.
Qed.

Lemma two_pow_pos (k : Z) : 0 < 2 ^ k.
Proof. apply Qpower_0_lt. reflexivity. Qed.

Lemma two_pow_nonzero (k : Z) : ~ 2 ^ k == 0.
Proof. pose proof (two_pow_pos k). lra. Qed.

Lemma two_pow_succ (k : Z) : 2 ^ (k + 1) == 2 * 2 ^ k.
Proof.
  rewrite Qpower_plus by discriminate. change (2 ^ 1) with 2. ring.
Qed.

(** The nearest integer grows with the fraction. *)
Lemma nearest_even_mono (a b c d : Z) :
  (0 < b)%Z -> (0 < d)%Z -> (a * d <= c * b)%Z ->
  (Js.nearest_even a b <= Js.nearest_even c d)%Z.
Proof.
  intros Hb Hd H. unfold Js.nearest_even.
  pose proof (Z.div_mod a b ltac:(lia)) as Ea.
  pose proof (Z.div_mod c d ltac:(lia)) as Ec.
  pose proof (Z.mod_pos_bound a b Hb) as Ra.
  pose proof (Z.mod_pos_bound c d Hd) as Rc.
  set (q1 := (a / b)%Z) in *. set (r1 := (a mod b)%Z) in *.
  set (q2 := (c / d)%Z) in *. set (r2 := (c mod d)%Z) in *.
  assert (H' : (b * d * q1 + r1 * d <= b * d * q2 + r2 * b)%Z).
  { rewrite Ea, Ec in H. lia. }
  assert (Hbd : (0 < b * d)%Z) by lia.
  assert (Hr1 : (0 <= r1 * d)%Z) by nia.
  assert (Hr2 : (r2 * b < b * d)%Z) by nia.
  assert (Hr1' : (r1 * d < b * d)%Z) by nia.
  assert (Hr2' : (0 <= r2 * b)%Z) by nia.
  assert (Hq : (q1 <= q2)%Z).
  { destruct (Z_le_gt_dec q1 q2) as [Hle | Hgt]; [exact Hle | exfalso].
    assert (b * d * (q2 + 1) <= b * d * q1)%Z by (apply Z.mul_le_mono_nonneg_l; lia).
    lia. }
  destruct (Z.eq_dec q1 q2) as [Heq | Hne].
  - assert (Hr : (r1 * d <= r2 * b)%Z) by (rewrite Heq in H'; lia).
    rewrite <- Heq.
    destruct (Z.compare_spec (2 * r1) b) as [E1 | E1 | E1];
      destruct (Z.compare_spec (2 * r2) d) as [E2 | E2 | E2];
      try destruct (Z.even q1); try lia; exfalso; nia.
  - assert (q1 + 1 <= q2)%Z by lia.
    destruct (2 * r1 ?= b)%Z; destruct (2 * r2 ?= d)%Z;
      try destruct (Z.even q1); try destruct (Z.even q2); lia.
Qed.

(** The integer nearest to a rational, a tie going to the even one. *)
#[local] Abbreviation nearest x := (Js.nearest_even (Qnum x) (Zpos (Qden x))).

Lemma nearest_mono (x y : Q) : x <= y -> (nearest x <= nearest y)%Z.
Proof.
  intros H. apply nearest_even_mono; try reflexivity. exact H.
Qed.

Lemma nearest_wd (x y : Q) : x == y -> nearest x = nearest y.
Proof.
  intros H. apply Z.le_antisymm; apply nearest_mono; rewrite H; apply Qle_refl.
Qed.

Lemma nearest_inject_Z (m : Z) : nearest (inject_Z m) = m.
Proof.
  unfold Js.nearest_even. cbn [inject_Z Qnum Qden].
  rewrite Z.div_1_r, Z.mod_1_r. reflexivity.
Qed.

Lemma nearest_even_nearest (a b : Z) :
  (0 < b)%Z -> Js.nearest_even a b = nearest (inject_Z a / inject_Z b).
Proof.
  intros Hb. apply Z.le_antisymm.
  - apply nearest_even_mono; [assumption | reflexivity |].
    destruct b as [| p | p]; try lia.
    unfold Qdiv, Qinv, Qmult, inject_Z. cbn. lia.
  - apply nearest_even_mono; [reflexivity | assumption |].
    destruct b as [| p | p]; try lia.
    unfold Qdiv, Qinv, Qmult, inject_Z. cbn. lia.
Qed.

(** A positive integer lies between the power of two its binary logarithm
    names and the next one. *)
Lemma log2_bounds (n : positive) :
  2 ^ Z.log2 (Zpos n) <= inject_Z (Zpos n) /\
  inject_Z (Zpos n) < 2 * 2 ^ Z.log2 (Zpos n).
Proof.
  destruct (Z.log2_spec (Zpos n) eq_refl) as [Hl Hu].
  pose proof (Z.log2_nonneg (Zpos n)) as H0.
  rewrite <- two_pow_succ. change 2 with (inject_Z 2).
  rewrite <- !Zpower_Qpower by lia.
  rewrite <- Zle_Qle, <- Zlt_Qlt. split; [exact Hl | exact Hu].
Qed.

Lemma Qmake_div (n d : positive) :
  Zpos n # d == inject_Z (Zpos n) / inject_Z (Zpos d).
Proof.
  unfold Qeq, Qdiv, Qinv, Qmult, inject_Z. cbn. lia.
Qed.

Lemma exponent_test (n d : positive) (e : Z) :
  (if (0 <=? e)%Z then (Zpos n <? Zpos d * 2 ^ e)%Z
   else (Zpos n * 2 ^ (- e) <? Zpos d)%Z) = true <->
  inject_Z (Zpos n) < 2 ^ e * inject_Z (Zpos d).
Proof.
  destruct (Z.leb_spec 0 e) as [He | He].
  - rewrite Z.ltb_lt, Zlt_Qlt, inject_Z_mult.
    rewrite Zpower_Qpower by assumption. change (inject_Z 2) with 2.
    rewrite (Qmult_comm (inject_Z (Zpos d))). reflexivity.
  - rewrite Z.ltb_lt, Zlt_Qlt, inject_Z_mult.
    rewrite Zpower_Qpower by lia. change (inject_Z 2) with 2.
    pose proof (two_pow_pos (- e)) as Hp.
    assert (E : 2 ^ e * 2 ^ (- e) == 1).
    { rewrite <- Qpower_plus by discriminate.
      replace (e + - e)%Z with 0%Z by lia. reflexivity. }
    pose proof (two_pow_pos e) as Hq.
    set (N := inject_Z (Zpos n)) in *. set (D := inject_Z (Zpos d)) in *.
    set (P := 2 ^ e) in *. set (R := 2 ^ (- e)) in *.
    split; intros H.
    + assert (P * (N * R) < P * D) by (apply Qmult_lt_l; assumption).
      assert (P * (N * R) == N) by (rewrite (Qmult_comm N R), Qmult_assoc, E; ring).
      lra.
    + assert (R * N < R * (P * D)) by (apply Qmult_lt_l; assumption).
      assert (R * (P * D) == D).
      { rewrite Qmult_assoc, (Qmult_comm R P), E. ring. }
      lra.
Qed.

(** [Js.exponent] is the exponent: [2^e <= n/d < 2^(e+1)]. *)
Lemma exponent_spec (n d : positive) :
  let e := Js.exponent (Zpos n) (Zpos d) in
  2 ^ e <= Zpos n # d /\ Zpos n # d < 2 ^ (e + 1).
Proof.
  cbv zeta. unfold Js.exponent.
  set (e0 := (Z.log2 (Zpos n) - Z.log2 (Zpos d))%Z).
  destruct (log2_bounds n) as [Hn1 Hn2]. destruct (log2_bounds d) as [Hd1 Hd2].
  assert (E : 2 ^ Z.log2 (Zpos n) == 2 ^ e0 * 2 ^ Z.log2 (Zpos d)).
  { rewrite <- Qpower_plus by discriminate. subst e0.
    replace (Z.log2 (Zpos n) - Z.log2 (Zpos d) + Z.log2 (Zpos d))%Z
      with (Z.log2 (Zpos n)) by lia. reflexivity. }
  pose proof (two_pow_pos e0) as HP.
  pose proof (two_pow_pos (Z.log2 (Zpos d))) as HB.
  assert (HD : 0 < inject_Z (Zpos d)) by reflexivity.
  pose proof (exponent_test n d e0) as Ht.
  rewrite !(Qmake_div n d).
  set (N := inject_Z (Zpos n)) in *. set (D := inject_Z (Zpos d)) in *.
  set (A := 2 ^ Z.log2 (Zpos n)) in *. set (B := 2 ^ Z.log2 (Zpos d)) in *.
  destruct (if (0 <=? e0)%Z then _ else _) eqn:T.
  - assert (Hlt : N < 2 ^ e0 * D) by (apply Ht; reflexivity).
    replace (e0 - 1 + 1)%Z with e0 by lia.
    assert (E2 : 2 ^ e0 == 2 * 2 ^ (e0 - 1)).
    { rewrite <- two_pow_succ. replace (e0 - 1 + 1)%Z with e0 by lia. reflexivity. }
    pose proof (two_pow_pos (e0 - 1)) as HP'.
    set (P := 2 ^ e0) in *. set (P' := 2 ^ (e0 - 1)) in *.
    split.
    + apply Qle_shift_div_l; [exact HD |].
      assert (P' * D <= P' * (2 * B)) by (apply Qmult_le_l; [assumption | lra]).
      assert (P' * (2 * B) == P * B) by (rewrite E2; ring).
      lra.
    + apply Qlt_shift_div_r; assumption.
  - assert (Hge : 2 ^ e0 * D <= N).
    { apply Qnot_lt_le. intros Hlt. apply Ht in Hlt. discriminate. }
    rewrite two_pow_succ.
    set (P := 2 ^ e0) in *.
    split.
    + apply Qle_shift_div_l; assumption.
    + apply Qlt_shift_div_r; [exact HD |].
      assert (P * B <= P * D) by (apply Qmult_le_l; assumption).
      assert (2 * P * D == 2 * (P * D)) by ring.
      lra.
Qed.

(** The exponent [Js.round_pos] works at. *)
#[local] Abbreviation exponent_of n d :=
  (Z.max (Js.exponent (Zpos n) (Zpos d)) (-1022)).

(** [Js.round_pos] rounds the significand at that exponent to 53 bits. *)
Lemma round_pos_eq (n d : positive) :
  let k := (exponent_of n d - 52)%Z in
  Js.round_pos n d == inject_Z (nearest ((Zpos n # d) / 2 ^ k)) * 2 ^ k.
Proof.
  cbv zeta. unfold Js.round_pos.
  set (k := (exponent_of n d - 52)%Z).
  rewrite pow2_Qpower.
  apply Qmult_comp; [| reflexivity].
  assert (HD : ~ inject_Z (Zpos d) == 0) by discriminate.
  pose proof (two_pow_nonzero k) as HP.
  destruct (Z.leb_spec 0 k) as [Hk | Hk].
  - assert (Hp : (0 < 2 ^ k)%Z) by (apply Z.pow_pos_nonneg; lia).
    rewrite nearest_even_nearest by lia.
    rewrite (nearest_wd _ ((Zpos n # d) / 2 ^ k)); [reflexivity |].
    rewrite inject_Z_mult, Zpower_Qpower by assumption.
    change (inject_Z 2) with 2. rewrite (Qmake_div n d).
    field. split; assumption.
  - assert (Hp : (0 < 2 ^ (- k))%Z) by (apply Z.pow_pos_nonneg; lia).
    rewrite nearest_even_nearest by lia.
    rewrite (nearest_wd _ ((Zpos n # d) / 2 ^ k)); [reflexivity |].
    rewrite inject_Z_mult, Zpower_Qpower by lia.
    change (inject_Z 2) with 2. rewrite (Qmake_div n d).
    assert (E : 2 ^ (- k) == / 2 ^ k) by apply Qpower_opp.
    rewrite E. field. split; assumption.
Qed.

Lemma exponent_of_bounds (n d : positive) :
  Zpos n # d < 2 ^ (exponent_of n d + 1) /\
  ((-1022 < exponent_of n d)%Z -> 2 ^ exponent_of n d <= Zpos n # d).
Proof.
  destruct (exponent_spec n d) as [Hl Hu]. cbv zeta in Hl, Hu.
  split.
  - eapply Qlt_le_trans; [exact Hu |].
    apply Qpower_le_compat_l; [lia | discriminate].
  - intros H. replace (Z.max _ _) with (Js.exponent (Zpos n) (Zpos d)) by lia.
    exact Hl.
Qed.

Lemma exponent_of_mono (n1 d1 n2 d2 : positive) :
  Zpos n1 # d1 <= Zpos n2 # d2 -> (exponent_of n1 d1 <= exponent_of n2 d2)%Z.
Proof.
  intros H.
  destruct (exponent_spec n1 d1) as [Hl _]. destruct (exponent_spec n2 d2) as [_ Hu].
  cbv zeta in Hl, Hu.
  assert (Hlt : 2 ^ Js.exponent (Zpos n1) (Zpos d1)
                < 2 ^ (Js.exponent (Zpos n2) (Zpos d2) + 1)).
  { eapply Qle_lt_trans; [exact Hl |]. eapply Qle_lt_trans; [exact H | exact Hu]. }
  apply Qpower_lt_compat_l_inv in Hlt; [| reflexivity].
  lia.
Qed.

(** Of two positive rationals, the larger rounds to the larger double: at
    the same exponent because the nearest integer is monotone, at different
    exponents because a power of two lies between the two results. *)
Lemma round_pos_mono (n1 d1 n2 d2 : positive) :
  Zpos n1 # d1 <= Zpos n2 # d2 -> Js.round_pos n1 d1 <= Js.round_pos n2 d2.
Proof.
  intros H. rewrite (round_pos_eq n1 d1), (round_pos_eq n2 d2). cbv zeta.
  pose proof (exponent_of_mono n1 d1 n2 d2 H) as He.
  destruct (exponent_of_bounds n1 d1) as [Hu1 _].
  destruct (exponent_of_bounds n2 d2) as [_ Hl2].
  assert (H1022 : (-1022 <= exponent_of n1 d1)%Z) by lia.
  set (e1 := exponent_of n1 d1) in *. set (e2 := exponent_of n2 d2) in *.
  set (x1 := Zpos n1 # d1) in *. set (x2 := Zpos n2 # d2) in *.
  destruct (Z.eq_dec e1 e2) as [Heq | Hne].
  - rewrite <- Heq. apply Qmult_le_compat_r; [| apply Qlt_le_weak, two_pow_pos].
    rewrite <- Zle_Qle. apply nearest_mono.
    apply Qmult_le_compat_r; [exact H |].
    apply Qlt_le_weak, Qinv_lt_0_compat, two_pow_pos.
  - assert (Hlt : (e1 < e2)%Z) by lia.
    specialize (Hl2 ltac:(lia)).
    assert (Hm1 : (nearest (x1 / 2 ^ (e1 - 52)) <= 2 ^ 53)%Z).
    { rewrite <- (nearest_inject_Z (2 ^ 53)). apply nearest_mono.
      apply Qle_shift_div_r; [apply two_pow_pos |].
      rewrite Zpower_Qpower by lia. change (inject_Z 2) with 2.
      rewrite <- Qpower_plus by discriminate.
      replace (53 + (e1 - 52))%Z with (e1 + 1)%Z by lia.
      apply Qlt_le_weak, Hu1. }
    assert (Hm2 : (2 ^ 52 <= nearest (x2 / 2 ^ (e2 - 52)))%Z).
    { rewrite <- (nearest_inject_Z (2 ^ 52)) at 1. apply nearest_mono.
      apply Qle_shift_div_l; [apply two_pow_pos |].
      rewrite Zpower_Qpower by lia. change (inject_Z 2) with 2.
      rewrite <- Qpower_plus by discriminate.
      replace (52 + (e2 - 52))%Z with e2 by lia.
      exact Hl2. }
    rewrite Zle_Qle in Hm1, Hm2.
    rewrite Zpower_Qpower in Hm1, Hm2 by lia. change (inject_Z 2) with 2 in Hm1, Hm2.
    apply Qle_trans with (2 ^ (e1 + 1)).
    + replace (e1 + 1)%Z with (53 + (e1 - 52))%Z by lia.
      rewrite Qpower_plus by discriminate.
      apply Qmult_le_compat_r; [exact Hm1 | apply Qlt_le_weak, two_pow_pos].
    + apply Qle_trans with (2 ^ e2).
      * apply Qpower_le_compat_l; [lia | discriminate].
      * replace e2 with (52 + (e2 - 52))%Z at 1 by lia.
        rewrite Qpower_plus by discriminate.
        apply Qmult_le_compat_r; [exact Hm2 | apply Qlt_le_weak, two_pow_pos].
Qed.

(** Rounding to binary64 is monotone. *)
Lemma binary64_mono (x y : Q) : x <= y -> Js.binary64 x <= Js.binary64 y.
Proof.
  intros H. unfold Js.binary64.
  pose proof (Qred_correct x) as Hx. pose proof (Qred_correct y) as Hy.
  destruct (Qred x) as [nx dx]. destruct (Qred y) as [ny dy].
  cbn [Qnum Qden].
  assert (Hxy : nx # dx <= ny # dy) by (rewrite Hx, Hy; exact H).
  destruct nx as [| nx | nx]; destruct ny as [| ny | ny].
  - apply Qle_refl.
  - apply round_pos_nonneg.
  - exfalso. revert Hxy. unfold Qle. cbn. lia.
  - exfalso. revert Hxy. unfold Qle. cbn. lia.
  - apply round_pos_mono, Hxy.
  - exfalso. revert Hxy. unfold Qle. cbn. lia.
  - pose proof (round_pos_nonneg nx dx). lra.
  - pose proof (round_pos_nonneg nx dx). pose proof (round_pos_nonneg ny dy). lra.
  - apply Qopp_le_compat. apply round_pos_mono.
    revert Hxy. unfold Qle. cbn. lia.
Qed.

(** A number between two doubles rounds to a double between them. *)
Lemma binary64_between (lo hi x : Q) :
  Js.binary64 lo == lo -> Js.binary64 hi == hi ->
  lo <= x -> x <= hi ->
  lo <= Js.binary64 x /\ Js.binary64 x <= hi.
Proof.
  intros Hlo Hhi H1 H2. split.
  - rewrite <- Hlo. apply binary64_mono, H1.
  - rewrite <- Hhi. apply binary64_mono, H2.
Qed.

(** The two literals, as the doubles they denote. *)
Example number_0_1 : Js.number 0.1 == 3602879701896397 # 36028797018963968.
Proof. vm_compute. reflexivity. Qed.

Example number_0_05 : Js.number 0.05 == 3602879701896397 # 72057594037927936.
Proof. vm_compute. reflexivity. Qed.

(** [0.2 - 0.1] is the double [0.1]; [1 - 1.05] is further from [0] than
    [0.05]. *)
Example sub_0_2_0_1 : Js.sub (Js.number 0.2) (Js.number 0.1) == Js.number 0.1.
Proof. vm_compute. reflexivity. Qed.

Example sub_1_1_05 :
  Js.number 0.05 < Js.Math_abs (Js.sub 1 (Js.div (Js.sub 2050 1000) 1000)).
Proof. vm_compute. reflexivity. Qed.

Lemma skipn_length_app {A : Type} (l evs : list A) :
  skipn (List.length l) (l ++ evs) = evs.
Proof.
  induction l as [| a l IH]; [reflexivity | exact IH].
Qed.

(** ** herehear *)

Module HereHearProps.
Import HereHear.
Local Open Scope list_scope.

(** Unfolds a method down to the world it returns. *)
Ltac step :=
  cbv beta iota delta
    [run result bind ret this Transport emit when update_engine update_transport
     set_updateInterval set_isInitialized set_onBpmChangeCallback
     set_currentState update_currentState set_startTime set_bpm set_isPlaying
     set_pausedPosition transport_set_bpm transport_set_seconds transport_start
     transport_start_at transport_pause not_initialized snapshot seekTo];
  cbn [fst snd engine transport events updateInterval isInitialized
       onBpmChangeCallback currentState startTime bpm isPlaying pausedPosition].

Lemma new_events_app (w w' : World) (evs : list Event) :
  events w' = events w ++ evs -> new_events w w' = evs.
Proof.
  intros E. unfold new_events. rewrite E. apply skipn_length_app.
Qed.

Lemma bind_this {A : Type} (k : TimingSync -> M A) (w : World) :
  bind this k w = k (engine w) w.
Proof. reflexivity. Qed.

Lemma not_initialized_world (w : World) :
  not_initialized w =
  (currentState (engine w),
   mkWorld (engine w) (transport w)
           (events w ++ [ConsoleWarn "TimingSync not initialized"])).
Proof. reflexivity. Qed.

Lemma seekTo_world (tnow target : Q) (w : World) :
  run (seekTo tnow target) w =
  mkWorld (engine w)
          (Tone.start_at (tnow + lookahead)
             (Tone.set_seconds (target + lookahead) (Tone.pause (transport w))))
          (events w ++ smooth_seek tnow target).
Proof.
  step. unfold smooth_seek. rewrite <- !app_assoc. reflexivity.
Qed.


(** The tempo write does not move the clock. *)
Lemma is_started_set_bpm (b : Q) (t : Tone.Transport) :
  Tone.is_started (Tone.set_bpm b t) = Tone.is_started t.
Proof. reflexivity. Qed.

Lemma seconds_set_bpm (b : Q) (t : Tone.Transport) :
  Tone.seconds (Tone.set_bpm b t) = Tone.seconds t.
Proof. reflexivity. Qed.

Lemma is_started_state (t : Tone.Transport) :
  Tone.is_started t = true <-> Tone.state t = Tone.started.
Proof.
  unfold Tone.is_started. destruct (Tone.state t); cbn; split; congruence.
Qed.

Lemma start_state (t : Tone.Transport) : Tone.state (Tone.start t) = Tone.started.
Proof.
  unfold Tone.start. destruct (Tone.is_started t) eqn:E; [| reflexivity].
  apply is_started_state, E.
Qed.

Lemma start_seconds (t : Tone.Transport) :
  Tone.seconds (Tone.start t) = Tone.seconds t.
Proof. unfold Tone.start. destruct (Tone.is_started t); reflexivity. Qed.

Lemma truthy_Some (s : Q) : ~ s == 0 -> Js.truthy (Some s) = true.
Proof. intros H. apply nonzero_true, H. Qed.

(** Splits on whether [syncFromRemote] notifies, then runs the rest. *)
Ltac notify_cases w state :=
  destruct (Js.gt (Js.Math_abs (Js.sub (bpm (currentState (engine w))) (bpm state)))
                  epsilon);
  [destruct (onBpmChangeCallback (engine w)) |];
  cbn [fst snd engine transport events];
  rewrite ?is_started_set_bpm, ?seconds_set_bpm.

(** Reads off the calls a method added, once the method is unfolded. *)
Ltac added w :=
  unfold new_events; cbn [events]; rewrite <- ?app_assoc;
  rewrite (skipn_length_app (events w)); reflexivity.

(** [syncFromRemote] on an initialized engine: what is stored and who is
    notified. *)
Lemma syncFromRemote_engine_and_callbacks
  (w : World) (now tnow : Q) (state : TransportState) :
  isInitialized (engine w) = true ->
  let w' := run (syncFromRemote now tnow state) w in
  engine w' =
    mkEngine (updateInterval (engine w)) true (onBpmChangeCallback (engine w)) state /\
  callbacks (new_events w w') =
    (if Js.gt (Js.Math_abs (Js.sub (bpm (currentState (engine w))) (bpm state))) epsilon
     then match onBpmChangeCallback (engine w) with
          | Some cb => [BpmChangeCallback cb (Js.Math_round (bpm state))]
          | None => []
          end
     else []).
Proof.
  intros Hinit w'. subst w'. unfold syncFromRemote. step. rewrite Hinit.
  cbn [negb].
  notify_cases w state.
  all: repeat match goal with
         | |- context [if ?c then _ else _] => destruct c
         end.
  all: cbn [fst snd engine transport events]; rewrite ?Hinit;
    split; [reflexivity |].
  all: unfold new_events; cbn [events]; rewrite <- ?app_assoc;
    rewrite (skipn_length_app (events w)); reflexivity.
Qed.

(** [syncFromRemote] with a playing snapshot on an initialized engine: the
    clock, branch by branch. *)
Lemma syncFromRemote_playing_clock
  (w : World) (now tnow s : Q) (state : TransportState) :
  isInitialized (engine w) = true ->
  isPlaying state = true ->
  startTime state = Some s ->
  ~ s == 0 ->
  let expected := expected_position now s in
  let t := Tone.set_bpm (bpm state) (transport w) in
  let w' := run (syncFromRemote now tnow state) w in
  if negb (isPlaying (currentState (engine w))) || negb (Tone.is_started (transport w))
  then clock_calls (new_events w w') = hard_seek expected /\
       transport w' = Tone.start (Tone.set_seconds expected t)
  else if Js.gt (drift_of (Tone.seconds (transport w)) expected) tolerance
  then clock_calls (new_events w w') = smooth_seek tnow expected /\
       transport w' =
         Tone.start_at (tnow + lookahead)
           (Tone.set_seconds (expected + lookahead) (Tone.pause t))
  else clock_calls (new_events w w') = [] /\ transport w' = t.
Proof.
  intros Hinit Hplay Hs Hnz expected t w'. subst w' t.
  unfold syncFromRemote. step.
  rewrite Hinit, Hplay, Hs, (truthy_Some s Hnz). cbn [negb andb num].
  fold (expected_position now s). fold expected.
  notify_cases w state.
  all: fold (drift_of (Tone.seconds (transport w)) expected).
  all: destruct (negb (isPlaying (currentState (engine w)))
                 || negb (Tone.is_started (transport w)));
    [| destruct (Js.gt (drift_of (Tone.seconds (transport w)) expected) tolerance)].
  all: cbn [fst snd engine transport events]; split; [added w | reflexivity].
Qed.

Lemma is_started_set_seconds (s : Q) (t : Tone.Transport) :
  Tone.is_started (Tone.set_seconds s t) = Tone.is_started t.
Proof. reflexivity. Qed.

(** The earlier [syncFromRemote] on an initialized engine, with a playing
    snapshot whose reference instant is a non-zero number. *)
Lemma earlier_syncFromRemote_playing
  (w : World) (now s : Q) (state : TransportState) :
  isInitialized (engine w) = true ->
  isPlaying state = true ->
  startTime state = Some s ->
  ~ s == 0 ->
  let expected := expected_position now s in
  let w' := run (Part000.syncFromRemote now state) w in
  clock_calls (new_events w w') =
    TransportSetSeconds expected ::
    (if Tone.is_started (transport w) then [] else [TransportStart None]) /\
  transport w' =
    Tone.start (Tone.set_seconds expected (Tone.set_bpm (bpm state) (transport w))).
Proof.
  intros Hinit Hplay Hs Hnz expected w'. subst w'.
  unfold Part000.syncFromRemote. step.
  rewrite Hinit, Hplay, Hs, (truthy_Some s Hnz). cbn [negb andb num].
  fold (expected_position now s). fold expected.
  notify_cases w state.
  all: rewrite ?is_started_set_seconds, ?is_started_set_bpm.
  all: destruct (Tone.is_started (transport w)) eqn:E;
    cbn [negb fst snd engine transport events].
  all: split; [added w |].
  all: try reflexivity.
  all: unfold Tone.start;
    rewrite is_started_set_seconds, is_started_set_bpm, E; reflexivity.
Qed.

(** C1, as amended.  A playing snapshot whose reference instant is a
    non-zero number reaches an initialized engine; [expected] is
    [(now - startTime)/1000] and [drift] the distance of the clock from it,
    both as the engine computes them.

    In the current revision: if the stored state was not playing, or the
    clock was not started, the clock is set straight to [expected] and
    started (hard seek).  If the stored state was playing and the clock was
    started, there is no hard seek: a drift above [0.05] is corrected by a
    smooth seek, and a drift of at most [0.05] leaves the clock alone.

    In the earlier revision: [expected] is written into the clock whatever
    the drift, and the clock is started only if it was not started. *)
Theorem syncFromRemote_transition_or_steady_state
  (w : World) (now tnow s : Q) (state : TransportState) :
  isInitialized (engine w) = true ->
  isPlaying state = true ->
  startTime state = Some s ->
  ~ s == 0 ->
  let expected := expected_position now s in
  let drift := drift_of (Tone.seconds (transport w)) expected in
  let w' := run (syncFromRemote now tnow state) w in
  let earlier := run (Part000.syncFromRemote now state) w in
  (isPlaying (currentState (engine w)) = false \/
   Tone.is_started (transport w) = false ->
     clock_calls (new_events w w') = hard_seek expected /\
     Tone.seconds (transport w') = expected /\
     Tone.state (transport w') = Tone.started)
  /\
  (isPlaying (currentState (engine w)) = true ->
   Tone.is_started (transport w) = true ->
     (tolerance < drift ->
        clock_calls (new_events w w') = smooth_seek tnow expected) /\
     (drift <= tolerance ->
        clock_calls (new_events w w') = [] /\
        Tone.seconds (transport w') = Tone.seconds (transport w) /\
        Tone.state (transport w') = Tone.state (transport w)))
  /\
  (Tone.is_started (transport w) = false ->
     clock_calls (new_events w earlier) = hard_seek expected /\
     Tone.seconds (transport earlier) = expected /\
     Tone.state (transport earlier) = Tone.started)
  /\
  (Tone.is_started (transport w) = true ->
     clock_calls (new_events w earlier) = [TransportSetSeconds expected] /\
     Tone.seconds (transport earlier) = expected /\
     Tone.state (transport earlier) = Tone.started).
Proof.
  intros Hinit Hplay Hs Hnz expected drift w' earlier.
  pose proof (syncFromRemote_playing_clock w now tnow s state Hinit Hplay Hs Hnz) as Hc.
  cbv zeta in Hc. fold expected in Hc. fold drift in Hc. fold w' in Hc.
  destruct (earlier_syncFromRemote_playing w now s state Hinit Hplay Hs Hnz)
    as [He1 He2].
  fold expected in He1, He2. fold earlier in He1, He2.
  split; [| split; [| split]].
  - intros Hedge.
    assert (Hb : negb (isPlaying (currentState (engine w)))
                 || negb (Tone.is_started (transport w)) = true).
    { destruct Hedge as [-> | ->]; [reflexivity | apply orb_true_r]. }
    rewrite Hb in Hc. destruct Hc as [Hcalls Ht].
    split; [exact Hcalls |]. rewrite Ht, start_state, start_seconds.
    split; reflexivity.
  - intros Hwas Hrun. rewrite Hwas, Hrun in Hc. cbn [negb orb] in Hc.
    split; intros Hd.
    + apply gt_true in Hd. rewrite Hd in Hc. exact (proj1 Hc).
    + apply gt_false in Hd. rewrite Hd in Hc. destruct Hc as [Hcalls Ht].
      split; [exact Hcalls |]. rewrite Ht. split; reflexivity.
  - intros Hstop. rewrite Hstop in He1.
    split; [exact He1 |]. rewrite He2, start_state, start_seconds.
    split; reflexivity.
  - intros Hrun. rewrite Hrun in He1.
    split; [exact He1 |]. rewrite He2, start_state, start_seconds.
    split; reflexivity.
Qed.

Lemma syncFromRemote_transition_or_steady_state_witness :
  let w := ready in
  let w' := run (syncFromRemote 10000 3 remote_playing) w in
  clock_calls (new_events w w') = hard_seek (expected_position 10000 5000) /\
  Tone.seconds (transport w') = expected_position 10000 5000 /\
  Tone.state (transport w') = Tone.started.
Proof.
  pose proof (syncFromRemote_transition_or_steady_state
                ready 10000 3 5000 remote_playing eq_refl eq_refl eq_refl) as H.
  cbv zeta in H. destruct H as [H _].
  - unfold Qeq. simpl. lia.
  - apply H. left. reflexivity.
Defined.

(** C1 as stated fails: the sound player has started the transport for a
    loop, the engine's stored state is still not playing, and a playing
    snapshot arrives.  The clock was running, and it is hard-seeked; the
    earlier revision writes the position into the running clock too. *)
Lemma syncFromRemote_hard_seek_while_running :
  let w := loop_running in
  let w' := run (syncFromRemote 10000 3 remote_playing) w in
  let earlier := run (Part000.syncFromRemote 10000 remote_playing) w in
  isInitialized (engine w) = true /\
  isPlaying remote_playing = true /\
  startTime remote_playing = Some 5000 /\
  Tone.state (transport w) = Tone.started /\
  clock_calls (new_events w w') = hard_seek (expected_position 10000 5000) /\
  ~ (clock_calls (new_events w w') = [] \/
     clock_calls (new_events w w') = smooth_seek 3 (expected_position 10000 5000)) /\
  clock_calls (new_events w earlier) =
    [TransportSetSeconds (expected_position 10000 5000)] /\
  ~ (clock_calls (new_events w earlier) = [] \/
     clock_calls (new_events w earlier) = smooth_seek 3 (expected_position 10000 5000)).
Proof.
  cbv zeta.
  split; [reflexivity |]. split; [reflexivity |]. split; [reflexivity |].
  split; [reflexivity |]. split; [vm_compute; reflexivity |].
  split; [intros [H | H]; vm_compute in H; discriminate H |].
  split; [vm_compute; reflexivity |].
  intros [H | H]; vm_compute in H; discriminate H.
Qed.

(** [pause()] on an initialized engine, spelled out. *)
Lemma pause_initialized (w : World) (now : Q) :
  isInitialized (engine w) = true ->
  let e := engine w in
  let recorded :=
    if Js.truthy (startTime (currentState e))
    then (now - num (startTime (currentState e))) / 1000
    else pausedPosition (currentState e) in
  let paused := mkState None (bpm (currentState e)) false recorded in
  pause now w =
  (paused,
   mkWorld (mkEngine (updateInterval e) (isInitialized e) (onBpmChangeCallback e) paused)
           (Tone.pause (transport w))
           (events w ++ [TransportPause; ConsoleLog "Paused at s" [recorded]])).
Proof.
  intros Hinit e recorded paused. subst e recorded paused.
  unfold pause. step. rewrite Hinit. cbn [negb].
  destruct (Js.truthy (startTime (currentState (engine w)))); step;
    rewrite ?Hinit, <- !app_assoc; cbn [app]; reflexivity.
Qed.

(** [resume()] on an initialized engine that is not playing, spelled out. *)
Lemma resume_not_playing (w : World) (now : Q) :
  isInitialized (engine w) = true ->
  isPlaying (currentState (engine w)) = false ->
  let e := engine w in
  let pos := pausedPosition (currentState e) in
  let resumed := mkState (Some (now - pos * 1000)) (bpm (currentState e)) true pos in
  resume now w =
  (resumed,
   mkWorld (mkEngine (updateInterval e) (isInitialized e) (onBpmChangeCallback e) resumed)
           (Tone.start (Tone.set_seconds pos (transport w)))
           (events w ++ [TransportSetSeconds pos; TransportStart None;
                         ConsoleLog "Resumed playback from s" [pos]])).
Proof.
  intros Hinit Hpaused e pos resumed. subst e pos resumed.
  unfold resume. step. rewrite Hinit, Hpaused. cbn [negb]. step.
  rewrite ?Hinit, <- !app_assoc; cbn [app]; reflexivity.
Qed.

(** C2.  On an initialized engine, [pause()] at [t1] followed by [resume()]
    at [t2] returns a playing state whose reference instant is
    [t2 - pausedPosition * 1000], with [pausedPosition] the one [pause()]
    recorded; the position derived from it at [t2] is that paused position. *)
Theorem pause_resume_round_trip (w : World) (t1 t2 : Q) :
  isInitialized (engine w) = true ->
  let recorded := pausedPosition (result (pause t1) w) in
  let resumed := result (resume t2) (run (pause t1) w) in
  isPlaying resumed = true /\
  startTime resumed = Some (t2 - recorded * 1000) /\
  position_at t2 (num (startTime resumed)) == recorded /\
  Tone.seconds (transport (run (resume t2) (run (pause t1) w))) = recorded.
Proof.
  intros Hinit recorded resumed. subst recorded resumed.
  unfold run, result. rewrite (pause_initialized w t1 Hinit). cbv zeta.
  cbn [fst snd].
  rewrite resume_not_playing by (cbn; assumption || reflexivity).
  cbv zeta.
  cbn [fst snd engine transport currentState pausedPosition isPlaying startTime num].
  rewrite start_seconds. cbn [Tone.seconds Tone.set_seconds].
  split; [reflexivity | split; [reflexivity | split; [| reflexivity]]].
  unfold position_at. field.
Qed.

Lemma pause_resume_round_trip_witness :
  let recorded := pausedPosition (result (pause 4000) playing) in
  let resumed := result (resume 9000) (run (pause 4000) playing) in
  recorded == 2 /\
  isPlaying resumed = true /\
  startTime resumed = Some (9000 - recorded * 1000) /\
  position_at 9000 (num (startTime resumed)) == recorded /\
  Tone.seconds (transport (run (resume 9000) (run (pause 4000) playing))) = recorded.
Proof.
  split; [reflexivity |].
  apply (pause_resume_round_trip playing 4000 9000). reflexivity.
Defined.


(** C3 as stated fails: [setBPM] stores a negative tempo as it stores any
    other. *)
Lemma setBPM_stores_negative_tempo :
  isInitialized (engine ready) = true /\
  0 < bpm (currentState (engine ready)) /\
  ~ 0 < bpm (currentState (engine (run (setBPM (-1)) ready))) /\
  bpm (result (setBPM (-1)) ready) = -1.
Proof.
  repeat split; try reflexivity.
  intros H. vm_compute in H. discriminate H.
Qed.

(** C3, as amended.  On an initialized engine [setBPM(t)] stores [t] as it
    is given, so the stored tempo is positive afterwards exactly when [t] is;
    [start], [resume], [pause] and [reset] leave the stored tempo as it was,
    and [syncFromRemote] stores the tempo of the snapshot. *)
Theorem tempo_after_each_handler (w : World) (now tnow t : Q) (state : TransportState) :
  isInitialized (engine w) = true ->
  let tempo_after (w' : World) := bpm (currentState (engine w')) in
  tempo_after (run (setBPM t) w) = t /\
  (0 < tempo_after (run (setBPM t) w) <-> 0 < t) /\
  tempo_after (run (start now) w) = tempo_after w /\
  tempo_after (run (resume now) w) = tempo_after w /\
  tempo_after (run (pause now) w) = tempo_after w /\
  tempo_after (run (reset now) w) = tempo_after w /\
  tempo_after (run (syncFromRemote now tnow state) w) = bpm state.
Proof.
  intros Hinit tempo_after. subst tempo_after. cbv beta.
  unfold setBPM, start, resume, pause, reset, syncFromRemote. step.
  rewrite Hinit. cbn [negb]. step.
  repeat split; try reflexivity; try (intros H; exact H).
  - destruct (isPlaying (currentState (engine w))); reflexivity.
  - destruct (Js.truthy (startTime (currentState (engine w)))); reflexivity.
  - destruct (isPlaying (currentState (engine w))); reflexivity.
  - notify_cases w state.
    all: destruct (isPlaying state && Js.truthy (startTime state)).
    all: repeat match goal with
           | |- context [if ?b then _ else _] => destruct b
           end; reflexivity.
Qed.

Lemma tempo_after_each_handler_witness :
  bpm (currentState (engine (run (setBPM 90) ready))) = 90 /\
  (0 < bpm (currentState (engine (run (setBPM 90) ready))) <-> 0 < 90).
Proof.
  pose proof (tempo_after_each_handler ready 2000 0 90 remote_playing eq_refl) as H.
  cbv zeta beta in H. destruct H as [H1 [H2 _]]. split; [exact H1 | exact H2].
Defined.


(** The drift corrector of the periodic loop, for a reference instant that
    is a non-zero number: a computed drift of at most [0.05] changes
    nothing, a larger one is corrected by a smooth seek to the expected
    position. *)
Lemma syncToTransport_corrects_beyond_tolerance (w : World) (now tnow s : Q) :
  isInitialized (engine w) = true ->
  isPlaying (currentState (engine w)) = true ->
  startTime (currentState (engine w)) = Some s ->
  ~ s == 0 ->
  let expected := expected_position now s in
  let drift := drift_of (Tone.seconds (transport w)) expected in
  let w' := run (syncToTransport now tnow) w in
  (drift <= tolerance -> w' = w) /\
  (tolerance < drift ->
     clock_calls (new_events w w') = smooth_seek tnow expected /\
     transport w' =
       Tone.start_at (tnow + lookahead)
         (Tone.set_seconds (expected + lookahead) (Tone.pause (transport w)))).
Proof.
  intros Hinit Hplay Hs Hnz expected drift w'. subst w'.
  unfold syncToTransport. step.
  rewrite Hinit, Hplay, Hs, (truthy_Some s Hnz). cbn [negb orb num].
  fold (expected_position now s). fold expected.
  fold (drift_of (Tone.seconds (transport w)) expected). fold drift.
  split; intros Hd.
  - apply gt_false in Hd. rewrite Hd. reflexivity.
  - apply gt_true in Hd. rewrite Hd. cbn [fst snd engine transport events].
    split; [added w | reflexivity].
Qed.

(** C4.  The engine is initialized and playing, with a reference instant
    that is a non-zero number; [expected] is [(now - startTime)/1000] and the
    drift is [|actual - expected|], both as the engine computes them, in
    binary64.  A wake-up of the loop changes nothing when the drift is at
    most [0.05] and smooth-seeks to [expected] when it is above.  The same
    holds for the steady-state branch of [syncFromRemote] (clock started,
    playing snapshot), with the snapshot's reference instant: no clock call
    and the clock as it was for a drift of at most [0.05], a smooth seek
    above it. *)
Theorem drift_corrector_threshold
  (w : World) (now tnow s s' : Q) (state : TransportState) :
  isInitialized (engine w) = true ->
  isPlaying (currentState (engine w)) = true ->
  startTime (currentState (engine w)) = Some s ->
  ~ s == 0 ->
  let actual := Tone.seconds (transport w) in
  (let expected := expected_position now s in
   let w' := run (syncToTransport now tnow) w in
   (drift_of actual expected <= tolerance -> w' = w) /\
   (tolerance < drift_of actual expected ->
      clock_calls (new_events w w') = smooth_seek tnow expected))
  /\
  (Tone.is_started (transport w) = true ->
   isPlaying state = true ->
   startTime state = Some s' ->
   ~ s' == 0 ->
   let expected := expected_position now s' in
   let w' := run (syncFromRemote now tnow state) w in
   (drift_of actual expected <= tolerance ->
      clock_calls (new_events w w') = [] /\
      Tone.seconds (transport w') = Tone.seconds (transport w) /\
      Tone.state (transport w') = Tone.state (transport w) /\
      Tone.scheduled (transport w') = Tone.scheduled (transport w)) /\
   (tolerance < drift_of actual expected ->
      clock_calls (new_events w w') = smooth_seek tnow expected)).
Proof.
  intros Hinit Hplay Hs Hnz actual. split.
  - cbv zeta.
    destruct (syncToTransport_corrects_beyond_tolerance w now tnow s Hinit Hplay Hs Hnz)
      as [Hle Hgt].
    split; [exact Hle |]. intros Hd. exact (proj1 (Hgt Hd)).
  - intros Hrun Hplay' Hs' Hnz' expected w'.
    pose proof (syncFromRemote_playing_clock w now tnow s' state Hinit Hplay' Hs' Hnz')
      as Hc.
    cbv zeta in Hc. fold expected in Hc. fold w' in Hc. fold actual in Hc.
    rewrite Hplay, Hrun in Hc. cbn [negb orb] in Hc.
    split; intros Hd.
    + apply gt_false in Hd. rewrite Hd in Hc. destruct Hc as [Hcalls Ht].
      split; [exact Hcalls |]. rewrite Ht. repeat split.
    + apply gt_true in Hd. rewrite Hd in Hc. exact (proj1 Hc).
Qed.

Lemma drift_corrector_threshold_witness :
  let w := run (tick 0 1) playing in
  clock_calls (new_events w (run (syncToTransport 10000 3) w)) =
    smooth_seek 3 (expected_position 10000 2000) /\
  run (syncToTransport 3040 3) w = w.
Proof.
  pose proof (drift_corrector_threshold
                (run (tick 0 1) playing) 10000 3 2000 2000 remote_playing
                eq_refl eq_refl eq_refl) as H.
  pose proof (drift_corrector_threshold
                (run (tick 0 1) playing) 3040 3 2000 2000 remote_playing
                eq_refl eq_refl eq_refl) as H'.
  cbv zeta in H, H'. split.
  - destruct H as [[_ H] _].
    + unfold Qeq. simpl. lia.
    + apply H. vm_compute. reflexivity.
  - destruct H' as [[H' _] _].
    + unfold Qeq. simpl. lia.
    + apply H'. vm_compute. discriminate.
Defined.

(** At the edge of the tolerance the engine decides as the source does.  The
    clock reads [1] s, the reference instant is [1000] and the wall clock
    [2050]: [(2050 - 1000)/1000] is the double [1.05], a little above
    [1.05], its distance from [1] is above the double [0.05], and the loop
    corrects. *)
Example drift_at_the_edge_is_corrected :
  let w := run (tick 0 1) (run (start 1000) ready) in
  Tone.seconds (transport w) == 1 /\
  tolerance < drift_of (Tone.seconds (transport w)) (expected_position 2050 1000) /\
  clock_calls (new_events w (run (syncToTransport 2050 3) w)) =
    smooth_seek 3 (expected_position 2050 1000).
Proof.
  cbv zeta. split; [reflexivity |]. split; vm_compute; reflexivity.
Qed.

(** C5.  On an initialized engine with a registered callback,
    [syncFromRemote(state)] calls it once, with [Math.round(state.bpm)], when
    the tempo differs from the stored one by more than [0.1], and does not
    call it when the difference is at most [0.1]; difference and [0.1] are
    the doubles the engine compares. *)
Theorem syncFromRemote_notifies_once
  (w : World) (now tnow : Q) (state : TransportState) (cb : nat) :
  isInitialized (engine w) = true ->
  onBpmChangeCallback (engine w) = Some cb ->
  let change := Js.Math_abs (Js.sub (bpm state) (bpm (currentState (engine w)))) in
  let called := callbacks (new_events w (run (syncFromRemote now tnow state) w)) in
  (epsilon < change -> called = [BpmChangeCallback cb (Js.Math_round (bpm state))]) /\
  (change <= epsilon -> called = []).
Proof.
  intros Hinit Hcb change called. subst called.
  destruct (syncFromRemote_engine_and_callbacks w now tnow state Hinit) as [_ Hc].
  rewrite Hc, Hcb.
  assert (Hsym : Js.Math_abs (Js.sub (bpm (currentState (engine w))) (bpm state))
                 == change) by apply abs_sub_sym.
  split; intros Hd.
  - rewrite <- Hsym in Hd. apply gt_true in Hd. rewrite Hd. reflexivity.
  - rewrite <- Hsym in Hd. apply gt_false in Hd. rewrite Hd. reflexivity.
Qed.

Lemma syncFromRemote_notifies_once_witness :
  let w := run (onBpmChange 7) ready in
  callbacks (new_events w (run (syncFromRemote 10000 3 remote_faster) w)) =
  [BpmChangeCallback 7 141].
Proof.
  pose proof (syncFromRemote_notifies_once
                (run (onBpmChange 7) ready) 10000 3 remote_faster 7
                eq_refl eq_refl) as H.
  cbv zeta in H. destruct H as [H _].
  assert (E : Js.Math_round (bpm remote_faster) = 141%Z) by (vm_compute; reflexivity).
  rewrite <- E. apply H. vm_compute. reflexivity.
Defined.

(** At the edge of the threshold the engine decides as the source does: from
    the double [0.2] to the double [0.1] the difference is the double [0.1],
    which is not above [0.1], and nobody is called; from [120.3] to [120.4]
    the difference of the doubles is above [0.1], and the callback gets
    [120]. *)
Example tempo_at_the_edge :
  let slow := mkWorld (mkEngine None true (Some 7%nat)
                         (mkState None (Js.number 0.2) false 0)) silent [] in
  let fast := mkWorld (mkEngine None true (Some 7%nat)
                         (mkState None (Js.number 120.3) false 0)) silent [] in
  callbacks (new_events slow
               (run (syncFromRemote 10000 3 (mkState None (Js.number 0.1) false 0)) slow))
  = [] /\
  callbacks (new_events fast
               (run (syncFromRemote 10000 3 (mkState None (Js.number 120.4) false 0)) fast))
  = [BpmChangeCallback 7 120].
Proof.
  cbv zeta. split; vm_compute; reflexivity.
Qed.

(** C6 as stated fails in its last clause: when the clock resumes, [0.05] s
    after [seekTo(1)], it reads [1.05] s, not [1] s. *)
Lemma seekTo_resumes_past_target :
  let w := loop_running in
  let resumed := Tone.elapse 3 lookahead (transport (run (seekTo 3 1) w)) in
  Tone.state (transport w) = Tone.started /\
  Tone.state resumed = Tone.started /\
  Tone.seconds resumed == 1 + 0.05 /\
  ~ Tone.seconds resumed == 1.
Proof.
  cbv zeta. repeat split; try reflexivity.
  intros H. vm_compute in H. discriminate H.
Qed.

(** C6, as amended.  On a running clock with no start pending,
    [seekTo(target)] makes exactly three calls: it pauses the clock, sets its
    position to [target + 0.05], and schedules the start [0.05] s after
    [Tone.now()].  The clock stays paused until then, and at that moment it
    is started at position [target + 0.05]: the target, advanced by the
    [0.05] s that went by, which is where the timeline is by then if
    [target] was where it was at the call. *)
Theorem seekTo_steps (w : World) (tnow target : Q) :
  Tone.state (transport w) = Tone.started ->
  Tone.scheduled (transport w) = None ->
  let w' := run (seekTo tnow target) w in
  lookahead = 0.05 /\
  new_events w w' =
    [TransportPause; TransportSetSeconds (target + lookahead);
     TransportStart (Some (tnow + lookahead))] /\
  engine w' = engine w /\
  transport w' =
    Tone.mkTransport Tone.paused (target + lookahead)
                     (Tone.bpm_value (transport w)) (Some (tnow + lookahead)) /\
  (forall dt : Q, dt < lookahead ->
     Tone.elapse tnow dt (transport w') = transport w') /\
  Tone.state (Tone.elapse tnow lookahead (transport w')) = Tone.started /\
  Tone.seconds (Tone.elapse tnow lookahead (transport w')) == target + lookahead /\
  (forall now s : Q, target == position_at now s ->
     Tone.seconds (Tone.elapse tnow lookahead (transport w'))
     == position_at (now + lookahead * 1000) s).
Proof.
  intros Hrun Hnone w'. subst w'. rewrite seekTo_world.
  cbn [engine transport events].
  assert (Ht : Tone.start_at (tnow + lookahead)
                 (Tone.set_seconds (target + lookahead) (Tone.pause (transport w)))
               = Tone.mkTransport Tone.paused (target + lookahead)
                   (Tone.bpm_value (transport w)) (Some (tnow + lookahead))).
  { unfold Tone.pause, Tone.is_started. rewrite Hrun. cbn.
    unfold Tone.start_at, Tone.set_seconds, Tone.is_started. cbn.
    rewrite Hnone. reflexivity. }
  rewrite Ht.
  split; [reflexivity |].
  split; [apply new_events_app; reflexivity |].
  split; [reflexivity |].
  split; [reflexivity |].
  unfold Tone.elapse, Tone.is_started. cbn.
  assert (E : Qle_bool (tnow + lookahead) (tnow + lookahead) = true)
    by (apply Qle_bool_iff; lra).
  rewrite E. cbn.
  split; [| split; [reflexivity | split]].
  - intros dt Hdt.
    destruct (Qle_bool (tnow + lookahead) (tnow + dt)) eqn:Edt; [| reflexivity].
    apply Qle_bool_iff in Edt. lra.
  - lra.
  - intros now s Htarget. unfold position_at in *. rewrite Htarget. unfold lookahead. field.
Qed.

Lemma seekTo_steps_witness :
  let w' := run (seekTo 3 1) loop_running in
  new_events loop_running w' =
    [TransportPause; TransportSetSeconds (1 + lookahead);
     TransportStart (Some (3 + lookahead))] /\
  Tone.seconds (Tone.elapse 3 lookahead (transport w')) == 1 + lookahead.
Proof.
  pose proof (seekTo_steps loop_running 3 1 eq_refl eq_refl) as H.
  cbv zeta in H.
  destruct H as [_ [H1 [_ [_ [_ [_ [H2 _]]]]]]]. split; [exact H1 | exact H2].
Defined.

(** C7.  Before [initialize], each of [start], [resume], [pause], [reset]
    and [setBPM] returns the stored state, leaves the engine and the
    transport as they were, and does nothing but warn on the console.  (A
    method of this engine has no way to throw: it is a total function of the
    world.) *)
Theorem handlers_before_initialize (w : World) (now t : Q) (handler : M TransportState) :
  isInitialized (engine w) = false ->
  In handler [start now; resume now; pause now; reset now; setBPM t] ->
  result handler w = currentState (engine w) /\
  engine (run handler w) = engine w /\
  transport (run handler w) = transport w /\
  new_events w (run handler w) = [ConsoleWarn "TimingSync not initialized"].
Proof.
  intros Hinit Hin.
  assert (Hw : handler w = not_initialized w).
  { cbn [In] in Hin.
    destruct Hin as [<- | [<- | [<- | [<- | [<- | []]]]]].
    all: unfold start, resume, pause, reset, setBPM;
      rewrite bind_this, Hinit; reflexivity. }
  unfold run, result. rewrite Hw, not_initialized_world. cbn [fst snd engine transport].
  repeat split. apply new_events_app. reflexivity.
Qed.

Lemma handlers_before_initialize_witness :
  result (pause 2000) created = currentState (engine created) /\
  engine (run (pause 2000) created) = engine created /\
  transport (run (pause 2000) created) = transport created /\
  new_events created (run (pause 2000) created) =
    [ConsoleWarn "TimingSync not initialized"].
Proof.
  apply (handlers_before_initialize created 2000 90 (pause 2000)).
  - reflexivity.
  - simpl. right. right. left. reflexivity.
Defined.

(** C9.  For a reading [r] of [Math.random()] in [[0, 1)], the delay the
    loop hands to [setTimeout] is [250 + (r*100 - 50)] ms and lies in
    [[200, 300]]; every wake-up of the loop arms exactly one timer, with
    that delay. *)
Theorem jitter_within_bounds (r : Q) :
  0 <= r -> r < 1 ->
  jitter r == 250 + (r * 100 - 50) /\
  200 <= jitter r /\ jitter r <= 300 /\
  forall (w : World) (now tnow : Q) (h : Z),
    timeouts (new_events w (run (sync now tnow r h) w)) = [SetTimeout (jitter r)].
Proof.
  intros H0 H1.
  assert (E : jitter r == 250 + (r * 100 - 50))
    by (unfold jitter, baseInterval, jitterRange; ring).
  split; [exact E |]. rewrite E.
  split; [lra |]. split; [lra |].
  intros w now tnow h. unfold sync, syncToTransport. step.
  repeat match goal with
         | |- context [if ?b then _ else _] => destruct b
         end.
  all: cbn [fst snd engine transport events]; unfold new_events;
    cbn [events]; rewrite <- ?app_assoc;
    rewrite (skipn_length_app (events w)); reflexivity.
Qed.

Lemma jitter_within_bounds_witness :
  200 <= jitter (1 # 2) /\ jitter (1 # 2) <= 300.
Proof.
  pose proof (jitter_within_bounds (1 # 2)) as H.
  destruct H as [_ [Hlo [Hhi _]]].
  - unfold Qle. simpl. lia.
  - reflexivity.
  - split; [exact Hlo | exact Hhi].
Defined.

(** C10.  A snapshot with [isPlaying = true] and [startTime = null] reaches
    an initialized engine: it becomes the stored state; no position is set
    and nothing is started; the clock is paused if it was started.  The
    transport and the calls made are those of the same snapshot with
    [isPlaying = false]. *)
Theorem syncFromRemote_playing_without_reference
  (w : World) (now tnow : Q) (state : TransportState) :
  isInitialized (engine w) = true ->
  isPlaying state = true ->
  startTime state = None ->
  let w' := run (syncFromRemote now tnow state) w in
  let not_playing := mkState None (bpm state) false (pausedPosition state) in
  let w'' := run (syncFromRemote now tnow not_playing) w in
  currentState (engine w') = state /\
  clock_calls (new_events w w') =
    (if Tone.is_started (transport w) then [TransportPause] else []) /\
  transport w' =
    (if Tone.is_started (transport w)
     then Tone.pause (Tone.set_bpm (bpm state) (transport w))
     else Tone.set_bpm (bpm state) (transport w)) /\
  transport w' = transport w'' /\
  events w' = events w''.
Proof.
  intros Hinit Hplay Hs w' not_playing w''. subst w' w'' not_playing.
  unfold syncFromRemote. step. rewrite Hinit, Hplay, Hs. cbn [negb andb Js.truthy].
  notify_cases w state.
  all: destruct (Tone.is_started (transport w));
    cbn [fst snd engine transport events currentState].
  all: repeat split; try reflexivity; added w.
Qed.

Lemma syncFromRemote_playing_without_reference_witness :
  let state := mkState None 140 true 0 in
  let w' := run (syncFromRemote 10000 3 state) loop_running in
  currentState (engine w') = state /\
  clock_calls (new_events loop_running w') = [TransportPause] /\
  Tone.state (transport w') = Tone.paused.
Proof.
  pose proof (syncFromRemote_playing_without_reference
                loop_running 10000 3 (mkState None 140 true 0)
                eq_refl eq_refl eq_refl) as H.
  cbv zeta in H. destruct H as [H1 [H2 [H3 _]]].
  split; [exact H1 |]. split; [exact H2 |].
  rewrite H3. reflexivity.
Defined.

(** ** herehear: the rest of the engine *)

(** *** The handlers on an initialized engine, spelled out *)

Lemma start_initialized (w : World) (now : Q) :
  isInitialized (engine w) = true ->
  let e := engine w in
  let started := mkState (Some now) (bpm (currentState e)) true 0 in
  start now w =
  (started,
   mkWorld (mkEngine (updateInterval e) (isInitialized e) (onBpmChangeCallback e) started)
           (Tone.start (Tone.set_seconds 0 (transport w)))
           (events w ++ [TransportSetSeconds 0; TransportStart None;
                         ConsoleLog "Started playback from 0 at:" [now]])).
Proof.
  intros Hinit e started. subst e started.
  unfold start. step. rewrite Hinit. cbn [negb]. step.
  rewrite ?Hinit, <- !app_assoc; cbn [app]; reflexivity.
Qed.

Lemma resume_playing (w : World) (now : Q) :
  isInitialized (engine w) = true ->
  isPlaying (currentState (engine w)) = true ->
  resume now w =
  (currentState (engine w),
   mkWorld (engine w) (transport w) (events w ++ [ConsoleLog "Already playing" []])).
Proof.
  intros Hinit Hplay. unfold resume. step. rewrite Hinit, Hplay. reflexivity.
Qed.

Lemma reset_initialized (w : World) (now : Q) :
  isInitialized (engine w) = true ->
  let e := engine w in
  let s := currentState e in
  let after :=
    mkState (if isPlaying s then Some now else startTime s) (bpm s) (isPlaying s) 0 in
  reset now w =
  (after,
   mkWorld (mkEngine (updateInterval e) (isInitialized e) (onBpmChangeCallback e) after)
           (Tone.set_seconds 0 (transport w))
           (events w ++ [TransportSetSeconds 0; ConsoleLog "Reset position to 0" []])).
Proof.
  intros Hinit e s after. subst e s after.
  unfold reset. step. rewrite Hinit. cbn [negb].
  destruct (isPlaying (currentState (engine w))) eqn:Hplay; step;
    rewrite ?Hinit, ?Hplay, <- !app_assoc; cbn [app]; reflexivity.
Qed.

Lemma setBPM_initialized (w : World) (b : Q) :
  isInitialized (engine w) = true ->
  let e := engine w in
  let s := currentState e in
  let after := mkState (startTime s) b (isPlaying s) (pausedPosition s) in
  setBPM b w =
  (after,
   mkWorld (mkEngine (updateInterval e) (isInitialized e) (onBpmChangeCallback e) after)
           (Tone.set_bpm b (transport w))
           (events w ++ [TransportSetBpm b; ConsoleLog "Updated BPM:" [b]])).
Proof.
  intros Hinit e s after. subst e s after.
  unfold setBPM. step. rewrite Hinit. cbn [negb]. step.
  rewrite ?Hinit, <- !app_assoc; cbn [app]; reflexivity.
Qed.

Lemma handle_not_initialized (w : World) (c : Command) (now : Q) :
  isInitialized (engine w) = false ->
  handle c now w = not_initialized w.
Proof.
  intros Hinit.
  destruct c; unfold handle, start, resume, pause, reset, setBPM;
    rewrite bind_this, Hinit; reflexivity.
Qed.

Lemma handle_all_cons (c : Command) (now : Q) (rest : list (Command * Q)) (w : World) :
  run (handle_all ((c, now) :: rest)) w = run (handle_all rest) (run (handle c now) w).
Proof.
  unfold run. cbn [handle_all]. unfold bind.
  destruct (handle c now w) as [a w']. reflexivity.
Qed.

Lemma is_started_start (t : Tone.Transport) : Tone.is_started (Tone.start t) = true.
Proof. apply is_started_state, start_state. Qed.

Lemma is_started_pause (t : Tone.Transport) : Tone.is_started (Tone.pause t) = false.
Proof.
  unfold Tone.pause. destruct (Tone.is_started t) eqn:E; [reflexivity | exact E].
Qed.

Lemma pause_seconds (t : Tone.Transport) :
  Tone.seconds (Tone.pause t) = Tone.seconds t.
Proof. unfold Tone.pause. destruct (Tone.is_started t); reflexivity. Qed.

Lemma position_at_nonneg (t s : Q) : s <= t -> 0 <= position_at t s.
Proof.
  intros H. unfold position_at. apply Qle_shift_div_l; [reflexivity | lra].
Qed.

Lemma position_at_monotone (t t' s : Q) :
  t <= t' -> position_at t s <= position_at t' s.
Proof.
  intros H. unfold position_at, Qdiv.
  apply Qmult_le_compat_r; [lra | discriminate].
Qed.

(** X1.  [start()] on an initialized engine restarts from the beginning whatever
    came before: the stored state is playing from [now] with paused position
    [0], the clock is set to [0] and started, and the returned snapshot is
    the stored state.  From then on the derived position is never negative
    and grows with the wall clock. *)
Theorem start_restarts_from_zero (w : World) (now : Q) :
  isInitialized (engine w) = true ->
  let w' := run (start now) w in
  result (start now) w = currentState (engine w') /\
  currentState (engine w') =
    mkState (Some now) (bpm (currentState (engine w))) true 0 /\
  Tone.seconds (transport w') = 0 /\
  Tone.state (transport w') = Tone.started /\
  clock_calls (new_events w w') = hard_seek 0 /\
  (forall t t' : Q, now <= t -> t <= t' ->
     0 <= position_at t now /\ position_at t now <= position_at t' now).
Proof.
  intros Hinit w'. subst w'. unfold run, result.
  rewrite (start_initialized w now Hinit). cbv zeta.
  cbn [fst snd engine transport currentState].
  rewrite start_state, start_seconds. cbn [Tone.seconds Tone.set_seconds].
  repeat split; try reflexivity.
  - unfold new_events. cbn [events]. rewrite skipn_length_app. reflexivity.
  - apply position_at_nonneg. assumption.
  - apply position_at_monotone. assumption.
Qed.

Lemma start_restarts_from_zero_witness :
  currentState (engine (run (start 9000) playing)) = mkState (Some 9000) 120 true 0 /\
  Tone.seconds (transport (run (start 9000) playing)) = 0.
Proof.
  pose proof (start_restarts_from_zero playing 9000 eq_refl) as H.
  cbv zeta in H. destruct H as [_ [H1 [H2 _]]]. split; [exact H1 | exact H2].
Defined.

(** X2.  [resume()] while playing changes nothing: after [start()] at [t1], a
    [resume()] at any [t2] returns the state [start()] stored and leaves the
    engine and the transport as [start()] left them, so the position is not
    re-based. *)
Theorem resume_after_start_changes_nothing (w : World) (t1 t2 : Q) :
  isInitialized (engine w) = true ->
  let w1 := run (start t1) w in
  let w2 := run (resume t2) w1 in
  result (resume t2) w1 = currentState (engine w1) /\
  engine w2 = engine w1 /\
  transport w2 = transport w1 /\
  new_events w1 w2 = [ConsoleLog "Already playing" []].
Proof.
  intros Hinit w1 w2. subst w1 w2. unfold run, result.
  rewrite (start_initialized w t1 Hinit). cbv zeta. cbn [fst snd].
  rewrite resume_playing by (cbn; assumption || reflexivity).
  cbn [fst snd engine transport].
  repeat split. apply new_events_app. reflexivity.
Qed.

Lemma resume_after_start_changes_nothing_witness :
  engine (run (resume 9000) (run (start 2000) ready)) = engine (run (start 2000) ready) /\
  transport (run (resume 9000) (run (start 2000) ready)) = transport (run (start 2000) ready).
Proof.
  pose proof (resume_after_start_changes_nothing ready 2000 9000 eq_refl) as H.
  cbv zeta in H. destruct H as [_ [H1 [H2 _]]]. split; [exact H1 | exact H2].
Defined.

(** X3.  [pause()] on an initialized engine whose reference instant [s] is a
    non-zero number stores the elapsed [(now - s)/1000] s as paused
    position, clears the reference and the playing flag, and makes one call
    on the clock, [pause()], which keeps the clock's position. *)
Theorem pause_records_elapsed_position (w : World) (now s : Q) :
  isInitialized (engine w) = true ->
  startTime (currentState (engine w)) = Some s ->
  ~ s == 0 ->
  let w' := run (pause now) w in
  currentState (engine w') =
    mkState None (bpm (currentState (engine w))) false (position_at now s) /\
  clock_calls (new_events w w') = [TransportPause] /\
  Tone.is_started (transport w') = false /\
  Tone.seconds (transport w') = Tone.seconds (transport w).
Proof.
  intros Hinit Hs Hnz w'. subst w'. unfold run.
  rewrite (pause_initialized w now Hinit). cbv zeta.
  rewrite Hs, (truthy_Some s Hnz). cbn [snd engine transport currentState num].
  rewrite is_started_pause, pause_seconds.
  repeat split.
  unfold new_events. cbn [events]. rewrite skipn_length_app. reflexivity.
Qed.

Lemma pause_records_elapsed_position_witness :
  currentState (engine (run (pause 4000) playing)) =
    mkState None 120 false (position_at 4000 2000) /\
  position_at 4000 2000 == 2.
Proof.
  split; [| reflexivity].
  apply (pause_records_elapsed_position playing 4000 2000).
  - reflexivity.
  - reflexivity.
  - unfold Qeq. simpl. lia.
Defined.

(** X4.  A second [pause()] does not lose the position: whatever the times, the
    state stored after [pause()]; [pause()] is the state stored after the
    first. *)
Theorem pause_twice_keeps_position (w : World) (t1 t2 : Q) :
  isInitialized (engine w) = true ->
  let w1 := run (pause t1) w in
  let w2 := run (pause t2) w1 in
  currentState (engine w2) = currentState (engine w1) /\
  Tone.is_started (transport w2) = false /\
  Tone.seconds (transport w2) = Tone.seconds (transport w1).
Proof.
  intros Hinit w1 w2. subst w1 w2. unfold run.
  rewrite (pause_initialized w t1 Hinit). cbv zeta. cbn [snd].
  rewrite pause_initialized by (cbn; assumption).
  cbv zeta. cbn [snd engine transport currentState startTime Js.truthy
                 pausedPosition bpm].
  rewrite is_started_pause, !pause_seconds. repeat split.
Qed.

Lemma pause_twice_keeps_position_witness :
  currentState (engine (run (pause 9000) (run (pause 4000) playing))) =
  currentState (engine (run (pause 4000) playing)).
Proof.
  pose proof (pause_twice_keeps_position playing 4000 9000 eq_refl) as H.
  cbv zeta in H. destruct H as [H _]. exact H.
Defined.

(** X5.  [reset()] on an initialized engine rewinds without changing the play
    state: the paused position and the clock position become [0], the clock
    is neither started nor paused, the playing flag stays, and the reference
    instant moves to [now] when playing and stays as it was otherwise. *)
Theorem reset_keeps_play_state (w : World) (now : Q) :
  isInitialized (engine w) = true ->
  let s := currentState (engine w) in
  let w' := run (reset now) w in
  let s' := currentState (engine w') in
  isPlaying s' = isPlaying s /\
  pausedPosition s' = 0 /\
  bpm s' = bpm s /\
  startTime s' = (if isPlaying s then Some now else startTime s) /\
  clock_calls (new_events w w') = [TransportSetSeconds 0] /\
  Tone.seconds (transport w') = 0 /\
  Tone.state (transport w') = Tone.state (transport w).
Proof.
  intros Hinit s w' s'. subst s w' s'. unfold run.
  rewrite (reset_initialized w now Hinit). cbv zeta.
  cbn [snd engine transport currentState isPlaying pausedPosition bpm startTime].
  repeat split.
  unfold new_events. cbn [events]. rewrite skipn_length_app. reflexivity.
Qed.

Lemma reset_keeps_play_state_witness :
  startTime (currentState (engine (run (reset 9000) playing))) = Some 9000 /\
  isPlaying (currentState (engine (run (reset 9000) playing))) = true.
Proof.
  pose proof (reset_keeps_play_state playing 9000 eq_refl) as H.
  cbv zeta in H. destruct H as [H1 [_ [_ [H2 _]]]]. split; [exact H2 | exact H1].
Defined.

(** X6.  [pause()], [reset()], [resume()]: playback resumes from the top.  The
    reference instant is [t3] up to [==], and the clock is started at
    position [0]. *)
Theorem reset_then_resume_from_zero (w : World) (t1 t2 t3 : Q) :
  isInitialized (engine w) = true ->
  let w3 := run (resume t3) (run (reset t2) (run (pause t1) w)) in
  isPlaying (currentState (engine w3)) = true /\
  position_at t3 (num (startTime (currentState (engine w3)))) == 0 /\
  Tone.seconds (transport w3) = 0 /\
  Tone.state (transport w3) = Tone.started.
Proof.
  intros Hinit w3. subst w3. unfold run.
  rewrite (pause_initialized w t1 Hinit). cbv zeta. cbn [snd].
  rewrite reset_initialized by (cbn; assumption).
  cbv zeta. cbn [snd engine currentState isPlaying startTime bpm].
  rewrite resume_not_playing by (cbn; assumption || reflexivity).
  cbv zeta. cbn [snd engine transport currentState isPlaying startTime
                 pausedPosition num].
  rewrite start_state, start_seconds. cbn [Tone.seconds Tone.set_seconds].
  split; [reflexivity | split; [| split; reflexivity]].
  unfold position_at. field.
Qed.

Lemma reset_then_resume_from_zero_witness :
  Tone.seconds (transport (run (resume 9000) (run (reset 6000) (run (pause 4000) playing)))) = 0.
Proof.
  pose proof (reset_then_resume_from_zero playing 4000 6000 9000 eq_refl) as H.
  cbv zeta in H. destruct H as [_ [_ [H _]]]. exact H.
Defined.

(** Every handler returns the state it leaves stored, initialized or not. *)
Lemma handlers_return_stored_state (w : World) (c : Command) (now : Q) :
  result (handle c now) w = currentState (engine (run (handle c now) w)).
Proof.
  unfold run, result.
  destruct (isInitialized (engine w)) eqn:Hinit.
  - destruct c; cbn [handle].
    + rewrite (start_initialized w now Hinit). reflexivity.
    + destruct (isPlaying (currentState (engine w))) eqn:Hplay.
      * rewrite (resume_playing w now Hinit Hplay). reflexivity.
      * rewrite (resume_not_playing w now Hinit Hplay). reflexivity.
    + rewrite (pause_initialized w now Hinit). reflexivity.
    + rewrite (reset_initialized w now Hinit). reflexivity.
    + rewrite (setBPM_initialized w b Hinit). reflexivity.
  - rewrite (handle_not_initialized w c now Hinit), not_initialized_world.
    reflexivity.
Qed.




(** One command at a reading [now >= t] keeps the paused position
    non-negative and the reference instant no later than [now]. *)
Lemma handle_keeps_bounds (w : World) (c : Command) (t now : Q) :
  t <= now ->
  0 <= pausedPosition (currentState (engine w)) ->
  (forall s : Q, startTime (currentState (engine w)) = Some s -> s <= t) ->
  let w' := run (handle c now) w in
  0 <= pausedPosition (currentState (engine w')) /\
  (forall s : Q, startTime (currentState (engine w')) = Some s -> s <= now).
Proof.
  intros Ht Hpos Href w'. subst w'. unfold run.
  assert (Href' : forall s : Q,
             startTime (currentState (engine w)) = Some s -> s <= now).
  { intros s Hs. apply Qle_trans with t; [apply Href, Hs | exact Ht]. }
  destruct (isInitialized (engine w)) eqn:Hinit.
  - destruct c; cbn [handle].
    + rewrite (start_initialized w now Hinit). cbv zeta.
      cbn [snd engine currentState pausedPosition startTime].
      split; [lra |]. intros s Hs. injection Hs as <-. lra.
    + destruct (isPlaying (currentState (engine w))) eqn:Hplay.
      * rewrite (resume_playing w now Hinit Hplay). cbn [snd engine].
        split; assumption.
      * rewrite (resume_not_playing w now Hinit Hplay). cbv zeta.
        cbn [snd engine currentState pausedPosition startTime].
        split; [assumption |]. intros s Hs. injection Hs as <-. lra.
    + rewrite (pause_initialized w now Hinit). cbv zeta.
      cbn [snd engine currentState pausedPosition startTime].
      split; [| discriminate].
      destruct (startTime (currentState (engine w))) as [s |] eqn:Hs;
        [| exact Hpos].
      cbn [Js.truthy num]. destruct (Js.nonzero s); [| exact Hpos].
      apply position_at_nonneg, Href'. reflexivity.
    + rewrite (reset_initialized w now Hinit). cbv zeta.
      cbn [snd engine currentState pausedPosition startTime].
      split; [lra |].
      destruct (isPlaying (currentState (engine w))); [| exact Href'].
      intros s Hs. injection Hs as <-. lra.
    + rewrite (setBPM_initialized w b Hinit). cbv zeta.
      cbn [snd engine currentState pausedPosition startTime].
      split; assumption.
  - rewrite (handle_not_initialized w c now Hinit), not_initialized_world.
    cbn [snd engine]. split; assumption.
Qed.

(** X8.  With a wall clock that never goes back, no session of commands makes
    the paused position negative. *)
Theorem commands_keep_position_nonnegative
  (session : list (Command * Q)) (t : Q) (w : World) :
  nondecreasing t session ->
  0 <= pausedPosition (currentState (engine w)) ->
  (forall s : Q, startTime (currentState (engine w)) = Some s -> s <= t) ->
  0 <= pausedPosition (currentState (engine (run (handle_all session) w))).
Proof.
  revert t w. induction session as [| [c now] rest IH]; intros t w Hmono Hpos Href.
  - exact Hpos.
  - rewrite handle_all_cons. destruct Hmono as [Ht Hrest].
    destruct (handle_keeps_bounds w c t now Ht Hpos Href) as [Hpos' Href'].
    apply (IH now); assumption.
Qed.

Lemma commands_keep_position_nonnegative_witness :
  0 <= pausedPosition (currentState (engine (run
         (handle_all [(Start, 2000); (Pause, 4000); (Resume, 9000); (Pause, 9500)])
         ready))).
Proof.
  apply (commands_keep_position_nonnegative
           [(Start, 2000); (Pause, 4000); (Resume, 9000); (Pause, 9500)] 1000 ready).
  - simpl. repeat split; unfold Qle; simpl; lia.
  - unfold Qle. simpl. lia.
  - intros s Hs. discriminate Hs.
Defined.

Lemma bpm_value_pause (t : Tone.Transport) :
  Tone.bpm_value (Tone.pause t) = Tone.bpm_value t.
Proof. unfold Tone.pause. destruct (Tone.is_started t); reflexivity. Qed.

Lemma bpm_value_start_at (time : Q) (t : Tone.Transport) :
  Tone.bpm_value (Tone.start_at time t) = Tone.bpm_value t.
Proof.
  unfold Tone.start_at. destruct (Tone.is_started t); [reflexivity |].
  destruct (Tone.scheduled t) as [t0 |]; [| reflexivity].
  destruct (Qle_bool t0 time); reflexivity.
Qed.

(** A wake-up of the loop on an engine that is not playing. *)
Lemma sync_not_playing (w : World) (now tnow r : Q) (h : Z) :
  isPlaying (currentState (engine w)) = false ->
  sync now tnow r h w =
  (tt,
   mkWorld (mkEngine (Some h) (isInitialized (engine w))
                     (onBpmChangeCallback (engine w)) (currentState (engine w)))
           (transport w)
           (events w ++ [SetTimeout (jitter r)])).
Proof.
  intros Hplay. unfold sync, syncToTransport. step. rewrite Hplay.
  rewrite orb_true_r. reflexivity.
Qed.

(** A wake-up of the loop, whatever the engine is doing. *)
Lemma sync_outcome (w : World) (now tnow r : Q) (h : Z) :
  let w' := run (sync now tnow r h) w in
  engine w' =
    mkEngine (Some h) (isInitialized (engine w))
             (onBpmChangeCallback (engine w)) (currentState (engine w)) /\
  Tone.bpm_value (transport w') = Tone.bpm_value (transport w) /\
  exists evs : list Event,
    events w' = events w ++ evs /\ timeouts evs = [SetTimeout (jitter r)].
Proof.
  cbv zeta. unfold sync, syncToTransport. step.
  repeat match goal with
         | |- context [if ?c then _ else _] => destruct c
         end.
  all: cbn [fst snd engine transport events].
  all: rewrite ?bpm_value_start_at; cbn [Tone.bpm_value Tone.set_seconds];
    rewrite ?bpm_value_pause.
  all: split; [reflexivity | split; [reflexivity |]].
  all: eexists; split; [rewrite <- ?app_assoc; reflexivity | reflexivity].
Qed.

(** X9.  [initialize(b)] on an engine that is not initialized and not playing:
    the engine becomes initialized, [b] becomes the tempo of the stored
    state and of the transport, one timer is armed with the jittered delay,
    its handle is kept, and the clock is not moved. *)
Theorem initialize_first_call (w : World) (b now tnow r : Q) (h : Z) :
  isInitialized (engine w) = false ->
  isPlaying (currentState (engine w)) = false ->
  let w' := run (initialize b now tnow r h) w in
  isInitialized (engine w') = true /\
  bpm (currentState (engine w')) = b /\
  Tone.bpm_value (transport w') = b /\
  updateInterval (engine w') = Some h /\
  timeouts (new_events w w') = [SetTimeout (jitter r)] /\
  transport_calls (new_events w w') = [TransportSetBpm b].
Proof.
  intros Hinit Hplay w'. subst w'.
  unfold initialize, startSyncLoop. step. rewrite Hinit. step.
  rewrite sync_not_playing by (cbn; exact Hplay).
  cbn [fst snd engine transport events updateInterval isInitialized
       currentState bpm Tone.bpm_value Tone.set_bpm].
  repeat split; added w.
Qed.

Lemma initialize_first_call_witness :
  isInitialized (engine ready) = true /\
  bpm (currentState (engine ready)) = 120 /\
  Tone.bpm_value (transport ready) = 120.
Proof.
  pose proof (initialize_first_call created 120 1000 0 (1 # 2) 1%Z eq_refl eq_refl) as H.
  cbv zeta in H. destruct H as [H1 [H2 [H3 _]]].
  split; [exact H1 | split; [exact H2 | exact H3]].
Defined.

(** X10.  A second [initialize] is ignored: whatever tempo it is given, the
    engine and the transport stay as they are, no timer is armed, and the
    only thing done is a line on the console. *)
Theorem initialize_again_is_ignored (w : World) (b now tnow r : Q) (h : Z) :
  isInitialized (engine w) = true ->
  let w' := run (initialize b now tnow r h) w in
  engine w' = engine w /\
  transport w' = transport w /\
  new_events w w' = [ConsoleLog "TimingSync already initialized" []].
Proof.
  intros Hinit w'. subst w'. unfold initialize. step. rewrite Hinit.
  cbn [fst snd engine transport events].
  repeat split. apply new_events_app. reflexivity.
Qed.

Lemma initialize_again_is_ignored_witness :
  engine (run (initialize 90 5000 0 (1 # 2) 2%Z) ready) = engine ready /\
  transport (run (initialize 90 5000 0 (1 # 2) 2%Z) ready) = transport ready.
Proof.
  pose proof (initialize_again_is_ignored ready 90 5000 0 (1 # 2) 2%Z eq_refl) as H.
  cbv zeta in H. destruct H as [H1 [H2 _]]. split; [exact H1 | exact H2].
Defined.

(** [destroy()], spelled out. *)
Lemma destroy_world (w : World) :
  run destroy w =
  mkWorld (mkEngine None false None (currentState (engine w)))
          (transport w)
          (events w ++ match updateInterval (engine w) with
                       | Some h => [ClearTimeout h]
                       | None => []
                       end).
Proof.
  unfold destroy. step.
  destruct (updateInterval (engine w)) eqn:Hu; step;
    rewrite ?Hu, ?app_nil_r; reflexivity.
Qed.

(** X11.  [destroy()] cancels the pending timer if there is one and does nothing
    else outside the engine: the transport is left as it is (a started clock
    keeps running) and the stored state is kept.  Afterwards the engine is
    not initialized, has no callback and no timer. *)
Theorem destroy_leaves_the_clock (w : World) :
  let w' := run destroy w in
  engine w' = mkEngine None false None (currentState (engine w)) /\
  transport w' = transport w /\
  new_events w w' =
    match updateInterval (engine w) with
    | Some h => [ClearTimeout h]
    | None => []
    end.
Proof.
  cbv zeta. rewrite destroy_world. cbn [engine transport].
  repeat split. apply new_events_app. reflexivity.
Qed.

Lemma syncFromRemote_not_initialized (w : World) (now tnow : Q) (state : TransportState) :
  isInitialized (engine w) = false -> syncFromRemote now tnow state w = (tt, w).
Proof.
  intros Hinit. unfold syncFromRemote. rewrite bind_this, Hinit. reflexivity.
Qed.

Lemma syncToTransport_idle (w : World) (now tnow : Q) :
  isInitialized (engine w) = false \/
  isPlaying (currentState (engine w)) = false \/
  Js.truthy (startTime (currentState (engine w))) = false ->
  syncToTransport now tnow w = (tt, w).
Proof.
  intros H. unfold syncToTransport. rewrite bind_this.
  destruct H as [-> | [-> | ->]]; rewrite ?orb_true_r; reflexivity.
Qed.

(** X12.  After [destroy()] the engine ignores everything: each command only
    warns, and neither a remote snapshot nor the drift corrector changes
    anything at all. *)
Theorem destroyed_engine_ignores_everything
  (w : World) (c : Command) (now tnow : Q) (state : TransportState) :
  let w' := run destroy w in
  engine (run (handle c now) w') = engine w' /\
  transport (run (handle c now) w') = transport w' /\
  new_events w' (run (handle c now) w') = [ConsoleWarn "TimingSync not initialized"] /\
  run (syncFromRemote now tnow state) w' = w' /\
  run (syncToTransport now tnow) w' = w'.
Proof.
  cbv zeta. rewrite destroy_world.
  set (w' := mkWorld _ _ _).
  assert (Hinit : isInitialized (engine w') = false) by reflexivity.
  unfold run.
  rewrite (handle_not_initialized w' c now Hinit), not_initialized_world.
  rewrite (syncFromRemote_not_initialized w' now tnow state Hinit).
  rewrite (syncToTransport_idle w' now tnow (or_introl Hinit)).
  cbn [snd engine transport].
  repeat split. apply new_events_app. reflexivity.
Qed.

(** X13.  A destroyed engine can be initialized again: it is initialized with the
    new tempo and one new timer is armed. *)
Theorem destroy_then_initialize (w : World) (b now tnow r : Q) (h : Z) :
  let w1 := run destroy w in
  let w2 := run (initialize b now tnow r h) w1 in
  isInitialized (engine w2) = true /\
  bpm (currentState (engine w2)) = b /\
  Tone.bpm_value (transport w2) = b /\
  updateInterval (engine w2) = Some h /\
  timeouts (new_events w1 w2) = [SetTimeout (jitter r)].
Proof.
  cbv zeta. rewrite destroy_world.
  remember (events w ++ match updateInterval (engine w) with
                        | Some h0 => [ClearTimeout h0]
                        | None => []
                        end) as before.
  set (w1 := mkWorld _ _ _).
  unfold initialize, startSyncLoop. step.
  subst w1. cbn [engine isInitialized transport events currentState].
  match goal with
  | |- context [sync now tnow r h ?W] =>
      pose proof (sync_outcome W now tnow r h) as H; cbv zeta in H;
      unfold run in H; destruct (sync now tnow r h W) as [u w2]
  end.
  cbn [snd engine transport events isInitialized currentState bpm] in H.
  destruct H as [He [Hb [evs [Hev Ht]]]].
  cbn [fst snd engine transport events].
  rewrite He, Hb. cbn [isInitialized currentState bpm updateInterval Tone.bpm_value
                       Tone.set_bpm].
  repeat split.
  unfold new_events. cbn [events]. rewrite Hev, <- !app_assoc.
  rewrite skipn_length_app. cbn [app].
  unfold timeouts in *. cbn [filter is_timeout]. rewrite filter_app, Ht.
  reflexivity.
Qed.

(** X14.  Registering a callback replaces the one before: after
    [onBpmChange(a)] and [onBpmChange(b)], a remote tempo whose computed
    distance from the stored one is above [0.1] calls [b], once, and does
    not call [a]. *)
Theorem onBpmChange_replaces
  (w : World) (a b : nat) (now tnow : Q) (state : TransportState) :
  isInitialized (engine w) = true ->
  epsilon < Js.Math_abs (Js.sub (bpm (currentState (engine w))) (bpm state)) ->
  let w2 := run (onBpmChange b) (run (onBpmChange a) w) in
  callbacks (new_events w2 (run (syncFromRemote now tnow state) w2)) =
  [BpmChangeCallback b (Js.Math_round (bpm state))].
Proof.
  intros Hinit Hchange w2.
  destruct (syncFromRemote_engine_and_callbacks w2 now tnow state Hinit) as [_ H].
  rewrite H. subst w2. cbn [onBpmChange run set_onBpmChangeCallback update_engine
                             snd engine onBpmChangeCallback currentState].
  apply gt_true in Hchange. rewrite Hchange. reflexivity.
Qed.

Lemma onBpmChange_replaces_witness :
  let w2 := run (onBpmChange 8) (run (onBpmChange 7) ready) in
  callbacks (new_events w2 (run (syncFromRemote 10000 3 remote_faster) w2)) =
  [BpmChangeCallback 8 141].
Proof.
  assert (E : Js.Math_round (bpm remote_faster) = 141%Z) by (vm_compute; reflexivity).
  rewrite <- E.
  apply (onBpmChange_replaces ready 7 8 10000 3 remote_faster).
  - reflexivity.
  - vm_compute. reflexivity.
Defined.

Lemma no_change_within_epsilon (x : Q) :
  Js.gt (Js.Math_abs (Js.sub x x)) epsilon = false.
Proof.
  rewrite sub_self. vm_compute. reflexivity.
Qed.

(** X15.  A snapshot delivered a second time never notifies: the second
    [syncFromRemote] of the same snapshot calls no callback and stores the
    same state. *)
Theorem redelivered_snapshot_never_notifies
  (w : World) (now tnow now' tnow' : Q) (state : TransportState) :
  isInitialized (engine w) = true ->
  let w1 := run (syncFromRemote now tnow state) w in
  let w2 := run (syncFromRemote now' tnow' state) w1 in
  callbacks (new_events w1 w2) = [] /\
  engine w2 = engine w1.
Proof.
  intros Hinit w1 w2.
  destruct (syncFromRemote_engine_and_callbacks w now tnow state Hinit) as [He _].
  fold w1 in He.
  assert (Hinit1 : isInitialized (engine w1) = true) by (rewrite He; reflexivity).
  destruct (syncFromRemote_engine_and_callbacks w1 now' tnow' state Hinit1) as [He2 Hc].
  fold w2 in He2, Hc. rewrite Hc, He2, He.
  cbn [currentState updateInterval onBpmChangeCallback].
  rewrite no_change_within_epsilon. split; reflexivity.
Qed.

Lemma redelivered_snapshot_never_notifies_witness :
  let w := run (onBpmChange 7) ready in
  let w1 := run (syncFromRemote 10000 3 remote_playing) w in
  let w2 := run (syncFromRemote 10200 3 remote_playing) w1 in
  callbacks (new_events w w1) = [BpmChangeCallback 7 140] /\
  callbacks (new_events w1 w2) = [].
Proof.
  split; [reflexivity |].
  pose proof (redelivered_snapshot_never_notifies
                (run (onBpmChange 7) ready) 10000 3 10200 3 remote_playing eq_refl) as H.
  cbv zeta in H. destruct H as [H _]. exact H.
Defined.

Lemma zero_drift (x : Q) : Js.gt (drift_of x x) tolerance = false.
Proof.
  unfold drift_of. rewrite sub_self. vm_compute. reflexivity.
Qed.

(** X16.  After a transition, the same snapshot delivered again at the same
    instant moves nothing: the clock that was just hard-seeked is found
    started and on position. *)
Theorem redelivery_after_transition_moves_nothing
  (w : World) (now tnow tnow' s : Q) (state : TransportState) :
  isInitialized (engine w) = true ->
  isPlaying state = true ->
  startTime state = Some s ->
  ~ s == 0 ->
  isPlaying (currentState (engine w)) = false \/
  Tone.is_started (transport w) = false ->
  let w1 := run (syncFromRemote now tnow state) w in
  let w2 := run (syncFromRemote now tnow' state) w1 in
  clock_calls (new_events w1 w2) = [] /\
  transport w2 = transport w1.
Proof.
  intros Hinit Hplay Hs Hnz Hedge w1 w2.
  pose proof (syncFromRemote_playing_clock w now tnow s state Hinit Hplay Hs Hnz) as H1.
  cbv zeta in H1. fold w1 in H1.
  assert (Hc : negb (isPlaying (currentState (engine w)))
               || negb (Tone.is_started (transport w)) = true).
  { destruct Hedge as [-> | ->]; [reflexivity | apply orb_true_r]. }
  rewrite Hc in H1. destruct H1 as [_ Ht1].
  destruct (syncFromRemote_engine_and_callbacks w now tnow state Hinit) as [He1 _].
  fold w1 in He1.
  assert (Hinit1 : isInitialized (engine w1) = true) by (rewrite He1; reflexivity).
  pose proof (syncFromRemote_playing_clock w1 now tnow' s state Hinit1 Hplay Hs Hnz) as H2.
  cbv zeta in H2. fold w2 in H2.
  rewrite He1 in H2. cbn [currentState] in H2. rewrite Hplay in H2.
  rewrite Ht1 in H2. rewrite is_started_start, start_seconds in H2.
  cbn [negb orb Tone.seconds Tone.set_seconds] in H2.
  rewrite zero_drift in H2. destruct H2 as [Hcalls Ht2].
  split; [exact Hcalls |].
  rewrite Ht2, Ht1. unfold Tone.start, Tone.set_bpm.
  destruct (Tone.is_started _); reflexivity.
Qed.

Lemma redelivery_after_transition_moves_nothing_witness :
  let w1 := run (syncFromRemote 10000 3 remote_playing) ready in
  let w2 := run (syncFromRemote 10000 4 remote_playing) w1 in
  clock_calls (new_events w1 w2) = [] /\ transport w2 = transport w1.
Proof.
  apply (redelivery_after_transition_moves_nothing ready 10000 3 4 5000 remote_playing).
  - reflexivity.
  - reflexivity.
  - reflexivity.
  - unfold Qeq. simpl. lia.
  - left. reflexivity.
Defined.

(** X19.  A paused engine is left alone by the loop: after [pause()], a wake-up
    arms the next timer and touches neither the stored state nor the
    transport. *)
Theorem loop_leaves_a_paused_engine_alone (w : World) (t1 now tnow r : Q) (h : Z) :
  isInitialized (engine w) = true ->
  let w1 := run (pause t1) w in
  let w2 := run (sync now tnow r h) w1 in
  currentState (engine w2) = currentState (engine w1) /\
  transport w2 = transport w1 /\
  new_events w1 w2 = [SetTimeout (jitter r)].
Proof.
  intros Hinit w1 w2.
  assert (Hp : isPlaying (currentState (engine w1)) = false).
  { subst w1. unfold run. rewrite (pause_initialized w t1 Hinit). reflexivity. }
  pose proof (sync_not_playing w1 now tnow r h Hp) as E.
  subst w2. unfold run. rewrite E. cbn [snd engine transport currentState].
  repeat split. apply new_events_app. reflexivity.
Qed.

Lemma loop_leaves_a_paused_engine_alone_witness :
  transport (run (sync 5000 3 (1 # 2) 2%Z) (run (pause 4000) playing)) =
  transport (run (pause 4000) playing).
Proof.
  pose proof (loop_leaves_a_paused_engine_alone playing 4000 5000 3 (1 # 2) 2%Z eq_refl) as H.
  cbv zeta in H. destruct H as [_ [H _]]. exact H.
Defined.

(** *** The earlier revision *)

(** X20.  The earlier revision rewrites the position of a running clock on every
    playing snapshot, whatever the drift; the current revision, on the same
    engine and snapshot, leaves a clock alone whose computed drift is at
    most [0.05].  Both store the same state and end with the clock
    started. *)
Theorem earlier_revision_jumps_a_running_clock
  (w : World) (now tnow s : Q) (state : TransportState) :
  isInitialized (engine w) = true ->
  isPlaying (currentState (engine w)) = true ->
  Tone.is_started (transport w) = true ->
  isPlaying state = true ->
  startTime state = Some s ->
  ~ s == 0 ->
  drift_of (Tone.seconds (transport w)) (expected_position now s) <= tolerance ->
  let earlier := run (Part000.syncFromRemote now state) w in
  let current := run (syncFromRemote now tnow state) w in
  clock_calls (new_events w earlier) = [TransportSetSeconds (expected_position now s)] /\
  Tone.seconds (transport earlier) = expected_position now s /\
  clock_calls (new_events w current) = [] /\
  Tone.seconds (transport current) = Tone.seconds (transport w) /\
  Tone.state (transport earlier) = Tone.started /\
  Tone.state (transport current) = Tone.started.
Proof.
  intros Hinit Hwas Hrun Hplay Hs Hnz Hdrift earlier current.
  destruct (earlier_syncFromRemote_playing w now s state Hinit Hplay Hs Hnz)
    as [Hc1 Ht1].
  fold earlier in Hc1, Ht1. rewrite Hrun in Hc1.
  pose proof (syncFromRemote_playing_clock w now tnow s state Hinit Hplay Hs Hnz) as H2.
  cbv zeta in H2. fold current in H2. rewrite Hwas, Hrun in H2. cbn [negb orb] in H2.
  apply gt_false in Hdrift. rewrite Hdrift in H2. destruct H2 as [Hc2 Ht2].
  rewrite Ht1, Ht2, start_state, start_seconds.
  cbn [Tone.seconds Tone.set_seconds Tone.set_bpm Tone.state].
  repeat split; try assumption. apply is_started_state, Hrun.
Qed.

Lemma earlier_revision_jumps_a_running_clock_witness :
  let w := run (tick 0 8) playing in
  clock_calls (new_events w (run (Part000.syncFromRemote 10000 (mkState (Some 2000) 120 true 0)) w))
  = [TransportSetSeconds (expected_position 10000 2000)] /\
  clock_calls (new_events w (run (syncFromRemote 10000 3 (mkState (Some 2000) 120 true 0)) w))
  = [].
Proof.
  pose proof (earlier_revision_jumps_a_running_clock
                (run (tick 0 8) playing) 10000 3 2000 (mkState (Some 2000) 120 true 0)
                eq_refl eq_refl eq_refl eq_refl eq_refl) as H.
  cbv zeta in H. destruct H as [H1 [_ [H2 _]]].
  - unfold Qeq. simpl. lia.
  - vm_compute. discriminate.
  - split; [exact H1 | exact H2].
Defined.

(** X21.  The two revisions agree on everything but the clock: for any snapshot,
    on any engine, they store the same state and make the same calls on the
    callback; when the snapshot is not a playing one with a reference
    instant, they do exactly the same. *)
Theorem revisions_agree_off_the_clock
  (w : World) (now tnow : Q) (state : TransportState) :
  let earlier := run (Part000.syncFromRemote now state) w in
  let current := run (syncFromRemote now tnow state) w in
  engine earlier = engine current /\
  callbacks (new_events w earlier) = callbacks (new_events w current) /\
  (isPlaying state && Js.truthy (startTime state) = false -> earlier = current).
Proof.
  cbv zeta. unfold Part000.syncFromRemote, syncFromRemote. step.
  destruct (isInitialized (engine w)) eqn:Hinit; cbn [negb];
    [| repeat split; reflexivity].
  destruct (isPlaying state && Js.truthy (startTime state)).
  - notify_cases w state.
    all: repeat match goal with
           | |- context [if ?c then _ else _] => destruct c
           end.
    all: cbn [fst snd engine transport events].
    all: split; [reflexivity | split; [| discriminate]].
    all: unfold new_events; cbn [events]; rewrite <- ?app_assoc;
      rewrite !(skipn_length_app (events w)); reflexivity.
  - notify_cases w state.
    all: destruct (Tone.is_started (transport w));
      cbn [fst snd engine transport events]; repeat split; reflexivity.
Qed.

(** X22.  The earlier drift corrector jumps: when the computed drift is above
    [0.05] it writes the expected position into the running clock, one
    call, without pausing or restarting it; at [0.05] or below it does
    nothing. *)
Theorem earlier_drift_correction_is_a_jump (w : World) (now s : Q) :
  isInitialized (engine w) = true ->
  isPlaying (currentState (engine w)) = true ->
  startTime (currentState (engine w)) = Some s ->
  ~ s == 0 ->
  let expected := expected_position now s in
  let drift := drift_of (Tone.seconds (transport w)) expected in
  let w' := run (Part000.syncToTransport now) w in
  (drift <= tolerance -> w' = w) /\
  (tolerance < drift ->
     transport_calls (new_events w w') = [TransportSetSeconds expected] /\
     transport w' = Tone.set_seconds expected (transport w) /\
     run (Part000.syncToTransport now) w' = w').
Proof.
  intros Hinit Hplay Hs Hnz expected drift w'. subst w'.
  unfold Part000.syncToTransport. step.
  rewrite Hinit, Hplay, Hs, (truthy_Some s Hnz). cbn [negb orb num].
  fold (expected_position now s). fold expected.
  fold (drift_of (Tone.seconds (transport w)) expected). fold drift.
  split; intros Hd.
  - apply gt_false in Hd. rewrite Hd. reflexivity.
  - apply gt_true in Hd. rewrite Hd.
    cbn [fst snd engine transport events Tone.seconds Tone.set_seconds].
    rewrite Hinit, Hplay, Hs, (truthy_Some s Hnz). cbn [negb orb num].
    fold (expected_position now s). fold expected.
    cbn [transport Tone.seconds Tone.set_seconds].
    fold (drift_of expected expected). rewrite zero_drift.
    split; [added w | split; reflexivity].
Qed.

Lemma earlier_drift_correction_is_a_jump_witness :
  let w := run (tick 0 1) playing in
  transport_calls (new_events w (run (Part000.syncToTransport 10000) w)) =
  [TransportSetSeconds (expected_position 10000 2000)].
Proof.
  pose proof (earlier_drift_correction_is_a_jump
                (run (tick 0 1) playing) 10000 2000 eq_refl eq_refl eq_refl) as H.
  cbv zeta in H. destruct H as [_ H].
  - unfold Qeq. simpl. lia.
  - destruct H as [H _]; [vm_compute; reflexivity | exact H].
Defined.

End HereHearProps.

(** ** gpsound *)

Module GPSoundProps.
Import GPSound.
Local Open Scope list_scope.

(** C8.  A vector whose acceleration is not [0] makes [translateVector]
    throw, and makes [syncFromTimingObject] throw whenever there is a timing
    object to query; after the throw the engine, the transport and the list
    of calls made are what they were. *)
Theorem acceleration_rejected (w : World) (pnow : Q) (vector : Vector) :
  ~ acceleration vector == 0 ->
  translateVector pnow vector w = (Throw "Acceleration not supported", w) /\
  (timingObject (engine w) <> None ->
   syncFromTimingObject pnow vector w = (Throw "Acceleration not supported", w)).
Proof.
  intros Hacc. apply nonzero_true in Hacc.
  assert (Ht : translateVector pnow vector w
               = (Throw "Acceleration not supported", w)).
  { unfold translateVector. rewrite Hacc. reflexivity. }
  split; [exact Ht |].
  intros Hobj. unfold syncFromTimingObject, bind, this. cbn [fst snd].
  destruct (timingObject (engine w)) as [obj |]; [| contradiction].
  rewrite Ht. reflexivity.
Qed.

Lemma acceleration_rejected_witness :
  let w := mkWorld (mkEngine (Some 1%nat) None true None)
                   (Tone.mkTransport Tone.started 4 120 None) [] in
  let vector := mkVector 8 2 0 (1 # 10) in
  translateVector 5000 vector w = (Throw "Acceleration not supported", w) /\
  syncFromTimingObject 5000 vector w = (Throw "Acceleration not supported", w).
Proof.
  cbv zeta.
  pose proof (acceleration_rejected
                (mkWorld (mkEngine (Some 1%nat) None true None)
                         (Tone.mkTransport Tone.started 4 120 None) [])
                5000 (mkVector 8 2 0 (1 # 10))) as H.
  destruct H as [H1 H2].
  - unfold Qeq. simpl. lia.
  - split; [exact H1 | apply H2; discriminate].
Defined.

(** ** gpsound: the rest of the engine *)

(** Unfolds a method down to the completion and the world it returns. *)
Ltac gstep :=
  cbv beta iota delta
    [bind ret throw this Transport emit when update_engine update_transport
     transport_set_bpm transport_set_seconds transport_start transport_stop];
  cbn [fst snd engine transport events timingObject updateInterval isInitialized
       onBpmChangeCallback].

Lemma translateVector_constant_velocity (w : World) (pnow : Q) (vector : Vector) :
  acceleration vector == 0 ->
  translateVector pnow vector w =
  (Normal (position vector + velocity vector * (pnow / 1000 - timestamp vector),
           velocity vector), w).
Proof.
  intros Hacc. unfold translateVector.
  apply nonzero_false in Hacc. rewrite Hacc. reflexivity.
Qed.

Lemma is_started_iff_state (t : Tone.Transport) :
  Tone.is_started t = true <-> Tone.state t = Tone.started.
Proof.
  unfold Tone.is_started. destruct (Tone.state t); cbn; split; congruence.
Qed.

Lemma started_after_start (t : Tone.Transport) : Tone.state (Tone.start t) = Tone.started.
Proof.
  unfold Tone.start. destruct (Tone.is_started t) eqn:E; [| reflexivity].
  apply is_started_iff_state, E.
Qed.

Lemma start_keeps_position_and_tempo (t : Tone.Transport) :
  Tone.seconds (Tone.start t) = Tone.seconds t /\
  Tone.bpm_value (Tone.start t) = Tone.bpm_value t.
Proof. unfold Tone.start. destruct (Tone.is_started t); split; reflexivity. Qed.

Lemma is_started_after_writes (b s : Q) (t : Tone.Transport) :
  Tone.is_started (Tone.set_bpm b (Tone.set_seconds s t)) = Tone.is_started t.
Proof. reflexivity. Qed.

Lemma new_events_from (w w' : World) (evs : list Event) :
  events w' = events w ++ evs -> new_events w w' = evs.
Proof.
  intros E. unfold new_events. rewrite E. apply skipn_length_app.
Qed.

(** [syncFromTimingObject] on a vector of constant velocity [v > 0],
    spelled out. *)
Lemma syncFromTimingObject_moving_world
  (w : World) (pnow : Q) (vector : Vector) (obj : nat) :
  timingObject (engine w) = Some obj ->
  acceleration vector == 0 ->
  0 < velocity vector ->
  let position := position vector + velocity vector * (pnow / 1000 - timestamp vector) in
  let tempo := Js.mul (velocity vector) 60 in
  let seconds := Js.div position (velocity vector) in
  syncFromTimingObject pnow vector w =
  (Normal tt,
   mkWorld (engine w)
     (Tone.start (Tone.set_bpm tempo (Tone.set_seconds seconds (transport w))))
     (events w ++
      (if Js.gt tempo 0
          && Js.gt (Js.Math_abs (Js.sub (Tone.bpm_value (transport w)) tempo))
                   (Js.number 0.1)
       then match onBpmChangeCallback (engine w) with
            | Some cb => [BpmChangeCallback cb (Js.Math_round tempo)]
            | None => []
            end
       else []) ++
      [TransportSetSeconds seconds; TransportSetBpm tempo] ++
      (if Tone.is_started (transport w) then []
       else [ConsoleLog "[TimingSync] Starting Transport" []; TransportStart None]))).
Proof.
  intros Hobj Hacc Hv position tempo seconds.
  assert (Hgv : Js.gt (velocity vector) 0 = true) by (apply gt_true, Hv).
  unfold syncFromTimingObject. unfold bind at 1, this. cbn [fst snd]. rewrite Hobj.
  unfold bind at 1. rewrite (translateVector_constant_velocity w pnow vector Hacc).
  cbn [fst snd]. fold position. fold tempo. fold seconds. rewrite Hgv.
  gstep.
  destruct (Js.gt tempo 0 && _); [destruct (onBpmChangeCallback (engine w)) |].
  all: cbn [fst snd engine transport events]; rewrite ?is_started_after_writes.
  all: unfold Tone.start; rewrite ?is_started_after_writes.
  all: destruct (Tone.is_started (transport w)) eqn:E;
    cbn [negb fst snd engine transport events].
  all: rewrite <- ?app_assoc; cbn [app]; rewrite ?app_nil_r.
  all: unfold Tone.start; rewrite ?is_started_after_writes, ?E; reflexivity.
Qed.

(** X23.  [syncFromTimingObject] on a vector of constant velocity [v > 0]: the
    call returns, the clock ends started, at the position the engine
    computes as [(p + v * (now - timestamp)) / v], with the tempo it
    computes as [v * 60], and the callback is called, once and with the
    rounded tempo, exactly when the engine's test passes: that tempo is
    above [0] and its computed distance from the tempo the transport had is
    above [0.1]. *)
Theorem syncFromTimingObject_moving (w : World) (pnow : Q) (vector : Vector) (obj : nat) :
  timingObject (engine w) = Some obj ->
  acceleration vector == 0 ->
  0 < velocity vector ->
  let position := position vector + velocity vector * (pnow / 1000 - timestamp vector) in
  let tempo := Js.mul (velocity vector) 60 in
  let w' := snd (syncFromTimingObject pnow vector w) in
  fst (syncFromTimingObject pnow vector w) = Normal tt /\
  engine w' = engine w /\
  Tone.state (transport w') = Tone.started /\
  Tone.seconds (transport w') = Js.div position (velocity vector) /\
  Tone.bpm_value (transport w') = tempo /\
  callbacks (new_events w w') =
    (if Js.gt tempo 0
        && Js.gt (Js.Math_abs (Js.sub (Tone.bpm_value (transport w)) tempo))
                 (Js.number 0.1)
     then match onBpmChangeCallback (engine w) with
          | Some cb => [BpmChangeCallback cb (Js.Math_round tempo)]
          | None => []
          end
     else []).
Proof.
  intros Hobj Hacc Hv position tempo w'. subst w'.
  rewrite (syncFromTimingObject_moving_world w pnow vector obj Hobj Hacc Hv).
  cbv zeta. fold position. fold tempo. cbn [fst snd engine transport].
  rewrite started_after_start.
  destruct (start_keeps_position_and_tempo
              (Tone.set_bpm tempo
                 (Tone.set_seconds (Js.div position (velocity vector)) (transport w))))
    as [-> ->].
  repeat split.
  unfold new_events. cbn [events]. rewrite skipn_length_app.
  unfold callbacks. rewrite !filter_app.
  destruct (_ && _); [destruct (onBpmChangeCallback (engine w)) |];
    destruct (Tone.is_started (transport w)); reflexivity.
Qed.

Lemma syncFromTimingObject_moving_witness :
  let w := mkWorld (mkEngine (Some 1%nat) None true (Some 7%nat))
                   (Tone.mkTransport Tone.stopped 0 120 None) [] in
  let vector := mkVector 8 (Js.div 140.6 60) 3 0 in
  let w' := snd (syncFromTimingObject 5000 vector w) in
  Tone.state (transport w') = Tone.started /\
  callbacks (new_events w w') = [BpmChangeCallback 7 141].
Proof.
  cbv zeta.
  pose proof (syncFromTimingObject_moving
                (mkWorld (mkEngine (Some 1%nat) None true (Some 7%nat))
                         (Tone.mkTransport Tone.stopped 0 120 None) [])
                5000 (mkVector 8 (Js.div 140.6 60) 3 0) 1%nat eq_refl) as H.
  cbv zeta in H. destruct H as [_ [_ [H1 [_ [_ H3]]]]].
  - vm_compute. reflexivity.
  - vm_compute. reflexivity.
  - split; [exact H1 |]. rewrite H3. vm_compute. reflexivity.
Defined.

(** At the edge of the threshold the engine decides as the source does.  The
    transport is at tempo [140] and the vector's velocity is the double
    [139.9 / 60].  Sixty times that number is more than [0.1] below [140],
    but the engine computes the product as the double [139.9], whose
    computed distance from [140] is not above the double [0.1]: nobody is
    called. *)
Example tempo_of_a_vector_at_the_edge :
  let w := mkWorld (mkEngine (Some 1%nat) None true (Some 7%nat))
                   (Tone.mkTransport Tone.started 4 140 None) [] in
  let vector := mkVector 8 (Js.div (Js.number 139.9) 60) 3 0 in
  let w' := snd (syncFromTimingObject 5000 vector w) in
  0.1 < 140 - velocity vector * 60 /\
  Js.mul (velocity vector) 60 == Js.number 139.9 /\
  callbacks (new_events w w') = [].
Proof.
  cbv zeta. split; [| split]; vm_compute; reflexivity.
Qed.

(** [syncFromTimingObject] on a vector of constant velocity [v <= 0],
    spelled out. *)
Lemma syncFromTimingObject_at_rest_world
  (w : World) (pnow : Q) (vector : Vector) (obj : nat) :
  timingObject (engine w) = Some obj ->
  acceleration vector == 0 ->
  velocity vector <= 0 ->
  syncFromTimingObject pnow vector w =
  (Normal tt,
   if Tone.PlaybackState_eqb (Tone.state (transport w)) Tone.stopped
   then w
   else mkWorld (engine w) (Tone.stop (transport w))
          (events w ++ [ConsoleLog "[TimingSync] Stopping Transport" [];
                        TransportStop])).
Proof.
  intros Hobj Hacc Hv.
  assert (Hgv : Js.gt (velocity vector) 0 = false) by (apply gt_false, Hv).
  assert (Hgt : Js.gt (Js.mul (velocity vector) 60) 0 = false).
  { apply gt_false. apply binary64_nonpos. lra. }
  unfold syncFromTimingObject. unfold bind at 1, this. cbn [fst snd]. rewrite Hobj.
  unfold bind at 1. rewrite (translateVector_constant_velocity w pnow vector Hacc).
  cbn [fst snd]. rewrite Hgv, Hgt. cbn [andb].
  gstep.
  destruct (Tone.PlaybackState_eqb (Tone.state (transport w)) Tone.stopped);
    cbn [negb fst snd engine transport events];
    rewrite <- ?app_assoc; reflexivity.
Qed.

(** X24.  [syncFromTimingObject] on a vector of constant velocity [v <= 0]: the
    call returns, nobody is notified, no position and no tempo is written,
    and the clock ends stopped: a transport that was started or paused is
    stopped, which puts it back at [0]. *)
Theorem syncFromTimingObject_at_rest (w : World) (pnow : Q) (vector : Vector) (obj : nat) :
  timingObject (engine w) = Some obj ->
  acceleration vector == 0 ->
  velocity vector <= 0 ->
  let w' := snd (syncFromTimingObject pnow vector w) in
  fst (syncFromTimingObject pnow vector w) = Normal tt /\
  engine w' = engine w /\
  Tone.state (transport w') = Tone.stopped /\
  (Tone.state (transport w) <> Tone.stopped -> Tone.seconds (transport w') = 0) /\
  (Tone.state (transport w) = Tone.stopped -> w' = w) /\
  callbacks (new_events w w') = [] /\
  updates (new_events w w') = [].
Proof.
  intros Hobj Hacc Hv w'. subst w'.
  rewrite (syncFromTimingObject_at_rest_world w pnow vector obj Hobj Hacc Hv).
  cbn [fst snd].
  destruct (Tone.state (transport w)) eqn:E; cbn [Tone.PlaybackState_eqb].
  all: cbn [engine transport Tone.stop Tone.state Tone.seconds].
  all: repeat split; try reflexivity; try congruence.
  all: unfold new_events; cbn [events];
    first [rewrite skipn_length_app | rewrite skipn_all]; reflexivity.
Qed.

Lemma syncFromTimingObject_at_rest_witness :
  let w := mkWorld (mkEngine (Some 1%nat) None true (Some 7%nat))
                   (Tone.mkTransport Tone.started 4 120 None) [] in
  let w' := snd (syncFromTimingObject 5000 (mkVector 8 0 3 0) w) in
  Tone.state (transport w') = Tone.stopped /\ Tone.seconds (transport w') = 0.
Proof.
  cbv zeta.
  pose proof (syncFromTimingObject_at_rest
                (mkWorld (mkEngine (Some 1%nat) None true (Some 7%nat))
                         (Tone.mkTransport Tone.started 4 120 None) [])
                5000 (mkVector 8 0 3 0) 1%nat eq_refl) as H.
  cbv zeta in H. destruct H as [_ [_ [H1 [H2 _]]]].
  - reflexivity.
  - unfold Qle. simpl. lia.
  - split; [exact H1 | apply H2; discriminate].
Defined.

Lemma syncFromTimingObject_throws (w : World) (pnow : Q) (vector : Vector) (obj : nat) :
  timingObject (engine w) = Some obj ->
  ~ acceleration vector == 0 ->
  syncFromTimingObject pnow vector w = (Throw "Acceleration not supported", w).
Proof.
  intros Hobj Hacc. apply nonzero_true in Hacc.
  unfold syncFromTimingObject, bind, this. cbn [fst snd]. rewrite Hobj.
  unfold translateVector. rewrite Hacc. reflexivity.
Qed.

Lemma syncFromTimingObject_without_object (w : World) (pnow : Q) (vector : Vector) :
  timingObject (engine w) = None ->
  syncFromTimingObject pnow vector w = (Normal tt, w).
Proof.
  intros Hobj. unfold syncFromTimingObject, bind, this. cbn [fst snd].
  rewrite Hobj. reflexivity.
Qed.

(** Whatever it is given, [syncFromTimingObject] leaves the engine's fields
    alone and never writes to the timing object. *)
Lemma syncFromTimingObject_only_reads (w : World) (pnow : Q) (vector : Vector) :
  let w' := snd (syncFromTimingObject pnow vector w) in
  engine w' = engine w /\
  exists evs : list Event,
    events w' = events w ++ evs /\ updates evs = [] /\ timeouts evs = [].
Proof.
  cbv zeta.
  destruct (timingObject (engine w)) as [obj |] eqn:Hobj.
  - destruct (Qeq_dec (acceleration vector) 0) as [Hacc | Hacc].
    + destruct (Qlt_le_dec 0 (velocity vector)) as [Hv | Hv].
      * rewrite (syncFromTimingObject_moving_world w pnow vector obj Hobj Hacc Hv).
        cbn [snd engine events]. split; [reflexivity |].
        eexists. split; [reflexivity |].
        unfold updates, timeouts. rewrite !filter_app.
        destruct (_ && _); [destruct (onBpmChangeCallback (engine w)) |];
          destruct (Tone.is_started (transport w)); split; reflexivity.
      * rewrite (syncFromTimingObject_at_rest_world w pnow vector obj Hobj Hacc Hv).
        cbn [snd].
        destruct (Tone.PlaybackState_eqb (Tone.state (transport w)) Tone.stopped).
        -- split; [reflexivity |]. exists []. rewrite app_nil_r. repeat split.
        -- split; [reflexivity |]. eexists. split; [reflexivity |]. split; reflexivity.
    + rewrite (syncFromTimingObject_throws w pnow vector obj Hobj Hacc).
      split; [reflexivity |]. exists []. rewrite app_nil_r. repeat split.
  - rewrite (syncFromTimingObject_without_object w pnow vector Hobj).
    split; [reflexivity |]. exists []. rewrite app_nil_r. repeat split.
Qed.

(** The delay stays within its bounds through every rounding on the way. *)
Lemma jitter_bounds (r : Q) : 0 <= r -> r < 1 -> 200 <= jitter r /\ jitter r <= 300.
Proof.
  intros H0 H1. unfold jitter, baseInterval, jitterRange, Js.add, Js.sub, Js.mul.
  destruct (binary64_between 0 50 (r * 50) eq_refl eq_refl) as [Ha1 Ha2];
    [lra | lra |].
  set (a := Js.binary64 (r * 50)) in *.
  destruct (binary64_between 0 100 (a * 2) eq_refl eq_refl) as [Hb1 Hb2];
    [lra | lra |].
  set (b := Js.binary64 (a * 2)) in *.
  destruct (binary64_between (-50) 50 (b - 50) eq_refl eq_refl) as [Hc1 Hc2];
    [lra | lra |].
  set (c := Js.binary64 (b - 50)) in *.
  apply (binary64_between 200 300 (250 + c) eq_refl eq_refl); lra.
Qed.

(** At the two ends: a reading of [0] gives [200], and the largest reading
    below [1], [1 - 2^-53], gives [300] itself. *)
Example jitter_at_the_ends :
  jitter 0 == 200 /\ jitter (1 - (1 # 9007199254740992)) == 300.
Proof. split; vm_compute; reflexivity. Qed.

(** X25.  One vector with acceleration ends the loop: the wake-up that sees it
    throws before it arms the next timer, and leaves everything as it was.
    A wake-up that sees a vector without acceleration returns, arms exactly
    one timer and keeps its handle; for a reading [r] of [Math.random()] in
    [[0, 1)] the delay is at least [200] and at most [300] ms. *)
Theorem accelerating_vector_ends_the_loop
  (w : World) (pnow r : Q) (vector : Vector) (h : Z) (obj : nat) :
  timingObject (engine w) = Some obj ->
  0 <= r -> r < 1 ->
  (~ acceleration vector == 0 ->
     sync pnow vector r h w = (Throw "Acceleration not supported", w)) /\
  (acceleration vector == 0 ->
     let w' := snd (sync pnow vector r h w) in
     fst (sync pnow vector r h w) = Normal tt /\
     updateInterval (engine w') = Some h /\
     timeouts (new_events w w') = [SetTimeout (jitter r)] /\
     200 <= jitter r /\ jitter r <= 300).
Proof.
  intros Hobj H0 H1. split.
  - intros Hacc. unfold sync. unfold bind at 1.
    rewrite (syncFromTimingObject_throws w pnow vector obj Hobj Hacc). reflexivity.
  - intros Hacc. cbv zeta.
    destruct (syncFromTimingObject_only_reads w pnow vector) as [He [evs [Hev [_ Ht]]]].
    assert (Hn : fst (syncFromTimingObject pnow vector w) = Normal tt).
    { destruct (Qlt_le_dec 0 (velocity vector)) as [Hv | Hv].
      - rewrite (syncFromTimingObject_moving_world w pnow vector obj Hobj Hacc Hv).
        reflexivity.
      - rewrite (syncFromTimingObject_at_rest_world w pnow vector obj Hobj Hacc Hv).
        reflexivity. }
    destruct (syncFromTimingObject pnow vector w) as [c w1] eqn:Es.
    cbn [fst snd] in *. subst c.
    unfold sync, bind. rewrite Es. gstep.
    split; [reflexivity |]. split; [reflexivity |].
    split; [| apply jitter_bounds; assumption].
    unfold new_events. cbn [events]. rewrite Hev, <- app_assoc, skipn_length_app.
    unfold timeouts in *. rewrite filter_app, Ht. reflexivity.
Qed.

Lemma accelerating_vector_ends_the_loop_witness :
  let w := mkWorld (mkEngine (Some 1%nat) (Some 5%Z) true None)
                   (Tone.mkTransport Tone.started 4 120 None) [] in
  sync 5000 (mkVector 8 2 0 (1 # 10)) (1 # 2) 6%Z w =
  (Throw "Acceleration not supported", w).
Proof.
  cbv zeta.
  pose proof (accelerating_vector_ends_the_loop
                (mkWorld (mkEngine (Some 1%nat) (Some 5%Z) true None)
                         (Tone.mkTransport Tone.started 4 120 None) [])
                5000 (1 # 2) (mkVector 8 2 0 (1 # 10)) 6%Z 1%nat eq_refl) as H.
  destruct H as [H _].
  - unfold Qle. simpl. lia.
  - reflexivity.
  - apply H. unfold Qeq. simpl. lia.
Defined.

(** X26.  Without a timing object, or before the connection is open, [setBPM],
    [play] and [pause] only warn: nothing is written to the timing object or
    to the transport.  Without a timing object [getState] returns [null] and
    [syncFromTimingObject] returns at once, even for a vector with
    acceleration. *)
Theorem nothing_happens_without_a_timing_object
  (w : World) (b pnow : Q) (current queried : Vector) (command : M unit) :
  timingObject (engine w) = None \/ isInitialized (engine w) = false ->
  In command [setBPM b pnow current queried; play pnow current queried;
              pause pnow current queried] ->
  command w =
    (Normal tt,
     mkWorld (engine w) (transport w)
             (events w ++ [ConsoleWarn "TimingObject not initialized"])) /\
  (timingObject (engine w) = None ->
     getState queried w = (Normal None, w) /\
     syncFromTimingObject pnow queried w = (Normal tt, w)).
Proof.
  intros Hguard Hin. split.
  - cbn [In] in Hin. destruct Hin as [<- | [<- | [<- | []]]].
    all: unfold setBPM, play, pause, bind, this; cbn [fst snd].
    all: destruct (timingObject (engine w)); [| reflexivity].
    all: destruct Hguard as [Hg | Hg]; [discriminate Hg | rewrite Hg; reflexivity].
  - intros Hobj. split.
    + unfold getState, bind, this. cbn [fst snd]. rewrite Hobj. reflexivity.
    + apply syncFromTimingObject_without_object, Hobj.
Qed.

Lemma nothing_happens_without_a_timing_object_witness :
  let w := mkWorld (mkEngine None None false None)
                   (Tone.mkTransport Tone.stopped 0 120 None) [] in
  play 5000 (mkVector 0 0 0 0) (mkVector 0 2 5 0) w =
  (Normal tt,
   mkWorld (engine w) (transport w) [ConsoleWarn "TimingObject not initialized"]).
Proof.
  cbv zeta.
  pose proof (nothing_happens_without_a_timing_object
                (mkWorld (mkEngine None None false None)
                         (Tone.mkTransport Tone.stopped 0 120 None) [])
                90 5000 (mkVector 0 0 0 0) (mkVector 0 2 5 0)
                (play 5000 (mkVector 0 0 0 0) (mkVector 0 2 5 0))) as H.
  destruct H as [H _].
  - left. reflexivity.
  - simpl. right. left. reflexivity.
  - exact H.
Defined.

(** X27.  [setBPM(b)] writes to the timing object before it translates: the
    update [{ velocity: b/60, position }] is issued whatever the vector
    then queried, and [b/60] is the velocity whose tempo is [b].  If that
    vector has acceleration the call throws after the update: the update is
    the only thing done, and the transport is as it was. *)
Theorem setBPM_updates_before_it_translates
  (w : World) (b pnow : Q) (current queried : Vector) (obj : nat) :
  timingObject (engine w) = Some obj ->
  isInitialized (engine w) = true ->
  let w' := snd (setBPM b pnow current queried w) in
  updates (new_events w w') = [TimingObjectUpdate (b / 60) (position current)] /\
  b / 60 * 60 == b /\
  (~ acceleration queried == 0 ->
     fst (setBPM b pnow current queried w) = Throw "Acceleration not supported" /\
     new_events w w' = [TimingObjectUpdate (b / 60) (position current)] /\
     transport w' = transport w /\
     engine w' = engine w).
Proof.
  intros Hobj Hinit w'. subst w'.
  set (w0 := mkWorld (engine w) (transport w)
               (events w ++ [TimingObjectUpdate (b / 60) (position current)])).
  assert (Hrun : setBPM b pnow current queried w =
                 match syncFromTimingObject pnow queried w0 with
                 | (Normal _, w1) =>
                     (Normal tt,
                      mkWorld (engine w1) (transport w1)
                        (events w1 ++ [ConsoleLog "Updated TimingObject BPM:" [b]]))
                 | (Throw message, w1) => (Throw message, w1)
                 end).
  { unfold setBPM, bind, this, emit. cbn [fst snd]. rewrite Hobj, Hinit.
    fold w0. destruct (syncFromTimingObject pnow queried w0) as [[u | m] w1];
      reflexivity. }
  rewrite Hrun.
  split; [| split; [field |]].
  - destruct (syncFromTimingObject_only_reads w0 pnow queried) as [_ [evs [Hev [Hu _]]]].
    destruct (syncFromTimingObject pnow queried w0) as [[u | m] w1];
      cbn [snd] in *; unfold new_events; cbn [events]; rewrite Hev;
      subst w0; cbn [events]; rewrite <- !app_assoc, skipn_length_app;
      unfold updates in *; cbn [app filter is_update]; rewrite ?filter_app, Hu;
      reflexivity.
  - intros Hacc.
    rewrite (syncFromTimingObject_throws w0 pnow queried obj Hobj Hacc).
    cbn [fst snd]. subst w0. cbn [engine transport].
    repeat split. apply new_events_from. reflexivity.
Qed.

Lemma setBPM_updates_before_it_translates_witness :
  let w := mkWorld (mkEngine (Some 1%nat) None true None)
                   (Tone.mkTransport Tone.started 4 120 None) [] in
  let w' := snd (setBPM 90 5000 (mkVector 8 2 0 0) (mkVector 8 2 0 (1 # 10)) w) in
  new_events w w' = [TimingObjectUpdate (90 / 60) 8] /\ transport w' = transport w.
Proof.
  cbv zeta.
  pose proof (setBPM_updates_before_it_translates
                (mkWorld (mkEngine (Some 1%nat) None true None)
                         (Tone.mkTransport Tone.started 4 120 None) [])
                90 5000 (mkVector 8 2 0 0) (mkVector 8 2 0 (1 # 10)) 1%nat
                eq_refl eq_refl) as H.
  cbv zeta in H. destruct H as [_ [_ H]].
  destruct H as [_ [H1 [H2 _]]].
  - unfold Qeq. simpl. lia.
  - split; [exact H1 | exact H2].
Defined.

(** X28.  [play()] while playback is active joins it: when the vector first
    queried has velocity above [0], nothing is written to the timing object,
    so another participant's tempo is not overwritten.  From rest, [play()]
    writes one update, with the tempo the transport has. *)
Theorem play_joins_active_playback
  (w : World) (pnow : Q) (current queried : Vector) (obj : nat) :
  timingObject (engine w) = Some obj ->
  isInitialized (engine w) = true ->
  let w' := snd (play pnow current queried w) in
  (0 < velocity current -> updates (new_events w w') = []) /\
  (velocity current <= 0 ->
     updates (new_events w w') =
       [TimingObjectUpdate (Tone.bpm_value (transport w) / 60)
          (if Js.nonzero (position current) then position current else 0)]).
Proof.
  intros Hobj Hinit w'. subst w'. split; intros Hv.
  - apply gt_true in Hv.
    set (w0 := mkWorld (engine w) (transport w)
                 (events w ++
                  [ConsoleLog "Playback already active, syncing to existing BPM" []])).
    assert (Hrun : play pnow current queried w = syncFromTimingObject pnow queried w0).
    { unfold play, bind, this, emit. cbn [fst snd]. rewrite Hobj, Hinit, Hv.
      fold w0. destruct (syncFromTimingObject pnow queried w0) as [[u | m] w1];
        reflexivity. }
    rewrite Hrun.
    destruct (syncFromTimingObject_only_reads w0 pnow queried) as [_ [evs [Hev [Hu _]]]].
    unfold new_events. rewrite Hev. subst w0. cbn [events].
    rewrite <- !app_assoc, skipn_length_app.
    unfold updates in *. cbn [app filter is_update]. exact Hu.
  - apply gt_false in Hv.
    set (upd := TimingObjectUpdate (Tone.bpm_value (transport w) / 60)
                  (if Js.nonzero (position current) then position current else 0)).
    set (w0 := mkWorld (engine w) (transport w) (events w ++ [upd])).
    assert (Hrun : play pnow current queried w =
                   match syncFromTimingObject pnow queried w0 with
                   | (Normal _, w1) =>
                       (Normal tt,
                        mkWorld (engine w1) (transport w1)
                          (events w1 ++ [ConsoleLog "Started playback with BPM:"
                                           [Tone.bpm_value (transport w)]]))
                   | (Throw message, w1) => (Throw message, w1)
                   end).
    { unfold play, bind, this, emit, Transport. cbn [fst snd].
      rewrite Hobj, Hinit, Hv. fold upd. fold w0.
      destruct (syncFromTimingObject pnow queried w0) as [[u | m] w1]; reflexivity. }
    rewrite Hrun.
    destruct (syncFromTimingObject_only_reads w0 pnow queried) as [_ [evs [Hev [Hu _]]]].
    destruct (syncFromTimingObject pnow queried w0) as [[u | m] w1];
      cbn [snd] in *; unfold new_events; cbn [events]; rewrite Hev;
      subst w0; cbn [events]; rewrite <- !app_assoc, skipn_length_app;
      unfold updates in *; subst upd; cbn [app filter is_update];
      rewrite ?filter_app, Hu; reflexivity.
Qed.

Lemma play_joins_active_playback_witness :
  let w := mkWorld (mkEngine (Some 1%nat) None true None)
                   (Tone.mkTransport Tone.stopped 0 120 None) [] in
  updates (new_events w (snd (play 5000 (mkVector 8 2 0 0) (mkVector 8 2 0 0) w))) = [].
Proof.
  cbv zeta.
  pose proof (play_joins_active_playback
                (mkWorld (mkEngine (Some 1%nat) None true None)
                         (Tone.mkTransport Tone.stopped 0 120 None) [])
                5000 (mkVector 8 2 0 0) (mkVector 8 2 0 0) 1%nat eq_refl eq_refl) as H.
  cbv zeta in H. destruct H as [H _]. apply H. reflexivity.
Defined.

(** X29.  [pause()] stops the local clock rather than pausing it: it writes
    velocity [0] with the current position to the timing object, and when
    the vector then queried is at rest the transport ends stopped, back at
    [0] if it was running. *)
Theorem pause_stops_the_transport
  (w : World) (pnow : Q) (current queried : Vector) (obj : nat) :
  timingObject (engine w) = Some obj ->
  isInitialized (engine w) = true ->
  acceleration queried == 0 ->
  velocity queried <= 0 ->
  let w' := snd (pause pnow current queried w) in
  fst (pause pnow current queried w) = Normal tt /\
  updates (new_events w w') = [TimingObjectUpdate 0 (position current)] /\
  Tone.state (transport w') = Tone.stopped /\
  (Tone.state (transport w) <> Tone.stopped -> Tone.seconds (transport w') = 0).
Proof.
  intros Hobj Hinit Hacc Hv w'. subst w'.
  set (w0 := mkWorld (engine w) (transport w)
               (events w ++ [TimingObjectUpdate 0 (position current)])).
  assert (Hrun : pause pnow current queried w =
                 match syncFromTimingObject pnow queried w0 with
                 | (Normal _, w1) =>
                     (Normal tt,
                      mkWorld (engine w1) (transport w1)
                        (events w1 ++ [ConsoleLog "Paused playback" []]))
                 | (Throw message, w1) => (Throw message, w1)
                 end).
  { unfold pause, bind, this, emit. cbn [fst snd]. rewrite Hobj, Hinit.
    fold w0. destruct (syncFromTimingObject pnow queried w0) as [[u | m] w1];
      reflexivity. }
  rewrite Hrun.
  rewrite (syncFromTimingObject_at_rest_world w0 pnow queried obj Hobj Hacc Hv).
  subst w0. cbn [fst snd transport events engine].
  destruct (Tone.state (transport w)) eqn:E; cbn [Tone.PlaybackState_eqb].
  all: cbn [engine transport events Tone.stop Tone.state Tone.seconds].
  all: split; [reflexivity | split; [| split; [try reflexivity | try reflexivity]]].
  all: try (unfold new_events; cbn [events]; rewrite <- !app_assoc, skipn_length_app;
            reflexivity).
  all: try assumption.
  all: intros H; congruence.
Qed.

Lemma pause_stops_the_transport_witness :
  let w := mkWorld (mkEngine (Some 1%nat) None true None)
                   (Tone.mkTransport Tone.started 4 120 None) [] in
  let w' := snd (pause 5000 (mkVector 8 2 0 0) (mkVector 8 0 5 0) w) in
  Tone.state (transport w') = Tone.stopped /\ Tone.seconds (transport w') = 0.
Proof.
  cbv zeta.
  pose proof (pause_stops_the_transport
                (mkWorld (mkEngine (Some 1%nat) None true None)
                         (Tone.mkTransport Tone.started 4 120 None) [])
                5000 (mkVector 8 2 0 0) (mkVector 8 0 5 0) 1%nat eq_refl eq_refl) as H.
  cbv zeta in H. destruct H as [_ [_ [H1 H2]]].
  - reflexivity.
  - unfold Qle. simpl. lia.
  - split; [exact H1 | apply H2; discriminate].
Defined.

(** X30.  After [destroy()] the engine has let go of the timing object: the
    pending timer is cancelled if there was one, the transport is left as it
    is, and from then on [syncFromTimingObject] returns without reading
    anything, so even a vector with acceleration no longer throws. *)
Theorem destroy_lets_go_of_the_timing_object (w : World) (pnow : Q) (vector : Vector) :
  let w' := snd (destroy w) in
  fst (destroy w) = Normal tt /\
  engine w' = mkEngine None None false None /\
  transport w' = transport w /\
  new_events w w' =
    match updateInterval (engine w) with
    | Some h => [ClearTimeout h]
    | None => []
    end /\
  syncFromTimingObject pnow vector w' = (Normal tt, w').
Proof.
  cbv zeta.
  assert (Hd : destroy w =
               (Normal tt,
                mkWorld (mkEngine None None false None) (transport w)
                  (events w ++ match updateInterval (engine w) with
                               | Some h => [ClearTimeout h]
                               | None => []
                               end))).
  { unfold destroy. gstep.
    destruct (updateInterval (engine w)) eqn:Hu; gstep;
      rewrite ?Hu, ?app_nil_r; reflexivity. }
  rewrite Hd. cbn [fst snd engine transport].
  split; [reflexivity |]. split; [reflexivity |]. split; [reflexivity |].
  split.
  - apply new_events_from. reflexivity.
  - apply syncFromTimingObject_without_object. reflexivity.
Qed.

End GPSoundProps.
